(** * A recursive Whitted-style ray tracer: shading, light sampling,
      shadow rays and the depth-bounded recursion

    Shallow embedding of [shading.cpp], [light.cpp] and [recursive.cpp].

    Numbers.  The C++ code computes on [float]; here a scalar is a real
    number, the usual idealisation: no rounding, no infinities, no NaN.
    [glm] vectors are records of reals, and the [glm] functions the code
    calls ([dot], [normalize], [reflect], [mix], [max], [clamp], [pow]) are
    written out from their [glm] definitions.

    State.  Every routine receives [RenderState& state].  Rendering reads the
    scene, the feature flags and the BVH and only ever advances the sampler, so
    the read-only part is the record [RenderState] and the sampler is threaded
    through the routines that draw from it.  [drawRay] feeds the debug
    visualisation only and is left out. *)

From Stdlib Require Import Reals Lra Lia ZArith List Bool Sorted FunctionalExtensionality.
Import ListNotations.

Open Scope R_scope.

(** ** glm vectors *)

Record vec2 := mkvec2 { vx : R; vy : R }.

Record vec3 := mkvec3 { x : R; y : R; z : R }.

(** [glm::vec3(f)] *)
Definition vec3_of (f : R) : vec3 := mkvec3 f f f.

Definition vzero : vec3 := vec3_of 0.

Definition vadd (a b : vec3) : vec3 := mkvec3 (x a + x b) (y a + y b) (z a + z b).
Definition vsub (a b : vec3) : vec3 := mkvec3 (x a - x b) (y a - y b) (z a - z b).
(** [vec3 * vec3] is componentwise in glm *)
Definition vmul (a b : vec3) : vec3 := mkvec3 (x a * x b) (y a * y b) (z a * z b).
Definition vneg (a : vec3) : vec3 := mkvec3 (- x a) (- y a) (- z a).
(** [vec3 * float], [float * vec3] *)
Definition vscale (a : vec3) (f : R) : vec3 := mkvec3 (x a * f) (y a * f) (z a * f).
(** [vec3 / float] *)
Definition vdiv (a : vec3) (f : R) : vec3 := mkvec3 (x a / f) (y a / f) (z a / f).
(** [vec3 + float] adds the scalar to every component *)
Definition vadds (a : vec3) (f : R) : vec3 := mkvec3 (x a + f) (y a + f) (z a + f).

Declare Scope vec_scope.
Delimit Scope vec_scope with vec.
Bind Scope vec_scope with vec3.
Infix "+" := vadd : vec_scope.
Infix "-" := vsub : vec_scope.
Infix "*" := vmul : vec_scope.
Notation "- a" := (vneg a) : vec_scope.
Infix "*^" := vscale (at level 40, left associativity).
Infix "/^" := vdiv (at level 40, left associativity).
Infix "+^" := vadds (at level 50, left associativity).

Definition dot (a b : vec3) : R := x a * x b + y a * y b + z a * z b.

(** [glm::normalize(v) = v * inversesqrt(dot(v, v))].  On the zero vector the
    [float] result is NaN; here it is the zero vector ([/ 0 = 0] in the
    reals of the library). *)
Definition normalize (v : vec3) : vec3 := v *^ (/ sqrt (dot v v)).

(** [glm::reflect(I, N) = I - N * dot(N, I) * 2] *)
Definition reflect (I N : vec3) : vec3 := (I - N *^ dot N I *^ 2)%vec.

(** [glm::mix(a, b, t) = a * (1 - t) + b * t] *)
Definition mix (a b : vec3) (t : R) : vec3 := (a *^ (1 - t) + b *^ t)%vec.

(** [glm::max(a, b) = (a < b) ? b : a] *)
Definition fmax (a b : R) : R := if Rlt_dec a b then b else a.

(** [glm::min(a, b) = (b < a) ? b : a] *)
Definition fmin (a b : R) : R := if Rlt_dec b a then b else a.

(** [glm::clamp(v, lo, hi) = min(max(v, lo), hi)] *)
Definition clamp (v lo hi : R) : R := fmin (fmax v lo) hi.

(** [glm::pow(b, e)] is [std::pow].  On the part of its domain that has a real
    value it is: [pow(b, 0) = 1] for every [b] (also [b = 0]),
    [pow(0, e) = 0] for [e > 0], and [exp(e * ln b)] for [b > 0].  For
    [b = 0] with [e < 0] and for [b < 0] the C function yields an infinity or
    a NaN (or needs an integral [e]); these arguments have no image here and
    map to [0]; no statement below relies on them. *)
Definition powf (b e : R) : R :=
  if Req_dec_T e 0 then 1
  else if Rlt_dec 0 b then Rpower b e
  else 0.

Definition vec3_eq_dec (a b : vec3) : {a = b} + {a <> b}.
Proof.
  destruct a as [a1 a2 a3], b as [b1 b2 b3].
  destruct (Req_dec_T a1 b1); [| right; congruence].
  destruct (Req_dec_T a2 b2); [| right; congruence].
  destruct (Req_dec_T a3 b3); [| right; congruence].
  left; congruence.
Defined.

(** ** Data model ([common.h], [render.h], [config.h]) *)

(** A texture is known to the core only through the two sampling routines
    of [texture.cpp], [sampleTextureNearest] and [sampleTextureBilinear]. *)
Record Image := {
  sampleTextureNearest : vec2 -> vec3;
  sampleTextureBilinear : vec2 -> vec3
}.

Record Material := {
  kd : vec3;
  ks : vec3;
  shininess : R;
  transparency : R;
  kdTexture : option Image
}.

Record HitInfo := {
  normal : vec3;
  texCoord : vec2;
  material : Material
}.

Record Ray := mkRay {
  origin : vec3;
  direction : vec3;
  t : R
}.

(** Modelled from the spec: the default value of [Ray::t] ([common.h] is not
    among the sources).  The hit distance is "initially unbounded"; on
    [float] that is the largest finite value, [FLT_MAX = (2^24 - 1) * 2^104]. *)
Definition FLT_MAX : R := 340282346638528859811704183484516925440.

(** [Ray r; r.origin = o; r.direction = d;] *)
Definition Ray_from (o d : vec3) : Ray := mkRay o d FLT_MAX.

Record PointLight := {
  position : vec3;
  color : vec3
}.

Record SegmentLight := {
  endpoint0 : vec3;
  endpoint1 : vec3;
  seg_color0 : vec3;
  seg_color1 : vec3
}.

Record ParallelogramLight := {
  v0 : vec3;
  edge01 : vec3;
  edge02 : vec3;
  color0 : vec3;
  color1 : vec3;
  color2 : vec3;
  color3 : vec3
}.

(** [std::variant<PointLight, SegmentLight, ParallelogramLight>] *)
Inductive Light :=
  | LPoint (l : PointLight)
  | LSegment (l : SegmentLight)
  | LParallelogram (l : ParallelogramLight).

Inductive ShadingModel := Lambertian | Phong | BlinnPhong | LinearGradientModel.

Record ExtraFeatures := {
  enableGlossyReflection : bool
}.

(** [numShadowSamples] is a [uint32_t]; the sampling loops count up to it
    and never wrap, so it is a natural number here. *)
Record Features := {
  enableShading : bool;
  shadingModel : ShadingModel;
  enableTextureMapping : bool;
  enableBilinearTextureFiltering : bool;
  enableShadows : bool;
  enableTransparency : bool;
  enableReflections : bool;
  extra : ExtraFeatures;
  numShadowSamples : nat
}.

(** Modelled from the spec: the sampler ([sampler.h] is not among the
    sources): [next_1d()] is a float in [0,1), [next_2d()] a pair of them,
    reproducible given a seed.  A seeded generator is its sequence of draws
    and a cursor into it. *)
Record Sampler := mkSampler {
  draws : nat -> R;
  cursor : nat
}.

Definition next_1d (s : Sampler) : R * Sampler :=
  (draws s (cursor s), mkSampler (draws s) (S (cursor s))).

Definition next_2d (s : Sampler) : vec2 * Sampler :=
  (mkvec2 (draws s (cursor s)) (draws s (S (cursor s))),
   mkSampler (draws s) (S (S (cursor s)))).

(** The read-only part of [RenderState].  [bvh_intersect r] is
    [state.bvh.intersect(state, r, hitInfo)]: [None] when it returns false,
    and on a hit the distance written to [r.t] with the [HitInfo] filled in.
    [sampleEnvironmentMap] is defined in [extra.cpp]. *)
Record RenderState := {
  lights : list Light;
  features : Features;
  bvh_intersect : Ray -> option (R * HitInfo);
  sampleEnvironmentMap : Ray -> vec3
}.

(** [LinearGradient]: [components] is a [std::vector<Component>] *)
Record Component := {
  comp_t : R;
  comp_color : vec3
}.

Definition LinearGradient := list Component.

(** ** shading.cpp *)

Definition sampleMaterialKd (state : RenderState) (hitInfo : HitInfo) : vec3 :=
  if enableTextureMapping (features state) then
    match kdTexture (material hitInfo) with
    | Some tex =>
        if enableBilinearTextureFiltering (features state)
        then sampleTextureBilinear tex (texCoord hitInfo)
        else sampleTextureNearest tex (texCoord hitInfo)
    | None => kd (material hitInfo)
    end
  else kd (material hitInfo).

Definition computeLambertianModel (state : RenderState)
    (cameraDirection lightDirection lightColor : vec3) (hitInfo : HitInfo) : vec3 :=
  let N := normalize (normal hitInfo) in
  let L := normalize lightDirection in
  let lambertian := fmax 0 (dot N L) in
  let kd := sampleMaterialKd state hitInfo in
  (kd * lightColor *^ lambertian)%vec.

Definition computePhongModel (state : RenderState)
    (cameraDirection lightDirection lightColor : vec3) (hitInfo : HitInfo) : vec3 :=
  let N := normalize (normal hitInfo) in
  let L := normalize lightDirection in
  let V := normalize cameraDirection in
  let R := reflect (- L)%vec N in
  let NdotL := fmax (dot N L) 0 in
  let kd := sampleMaterialKd state hitInfo *^ NdotL in
  let diffuse := (kd * lightColor *^ NdotL)%vec in
  let RdotV := fmax (dot R V) 0 in
  let ks := ks (material hitInfo) in
  let specular := (ks * lightColor *^ RdotV)%vec in
  (diffuse + specular)%vec.

Definition computeBlinnPhongModel (state : RenderState)
    (cameraDirection lightDirection lightColor : vec3) (hitInfo : HitInfo) : vec3 :=
  let N := normalize (normal hitInfo) in
  let L := normalize lightDirection in
  let V := normalize cameraDirection in
  let H := normalize (L + V)%vec in
  let NdotL := fmax (dot N L) 0 in
  let kd := sampleMaterialKd state hitInfo in
  let diffuse := (kd * lightColor *^ NdotL)%vec in
  let NdotH := powf (fmax 0 (dot N H)) (shininess (material hitInfo)) in
  let ks := ks (material hitInfo) in
  let specular := (ks * lightColor *^ NdotH)%vec in
  (diffuse + specular)%vec.

(** The search loop of [LinearGradient::sample]:
    [for (i = 0; i < components.size() - 1; ++i)] over the adjacent pairs
    [components[i], components[i + 1]].  [None] is the [assert(false)] after
    the loop. *)
Fixpoint sample_search (components : list Component) (ti : R) : option vec3 :=
  match components with
  | a :: ((b :: _) as rest) =>
      let ta := comp_t a in
      let tb := comp_t b in
      if Rle_dec ta ti then
        if Rle_dec ti tb then
          let alpha := (ti - ta) / (tb - ta) in
          Some (mix (comp_color a) (comp_color b) alpha)
        else sample_search rest ti
      else sample_search rest ti
  | _ => None
  end.

(** [LinearGradient::sample]; [None] is a failed assertion. *)
Definition LinearGradient_sample (components : LinearGradient) (ti : R) : option vec3 :=
  match components with
  | front :: _ :: _ =>
      let back := last components front in
      if Rle_dec ti (comp_t front) then Some (comp_color front)
      else if Rge_dec ti (comp_t back) then Some (comp_color back)
      else sample_search components ti
  | _ => None
  end.

(** [computeLinearGradientModel]; [None] when [gradient.sample] fails its
    assertion. *)
Definition computeLinearGradientModel (state : RenderState)
    (cameraDirection lightDirection lightColor : vec3) (hitInfo : HitInfo)
    (gradient : LinearGradient) : option vec3 :=
  let cos_theta := dot (normalize lightDirection) (normalize (normal hitInfo)) in
  let cos_theta := clamp cos_theta (-1) 1 in
  match LinearGradient_sample gradient cos_theta with
  | Some sampledColor => Some (sampledColor * lightColor)%vec
  | None => None
  end.

(** The hardcoded gradient of [computeShading]. *)
Definition gradient : LinearGradient :=
  [ Build_Component 0.1 (mkvec3 (215 / 256) (210 / 256) (203 / 256));
    Build_Component 0.22 (mkvec3 (250 / 256) (250 / 256) (240 / 256));
    Build_Component 0.5 (mkvec3 (145 / 256) (170 / 256) (175 / 256));
    Build_Component 0.78 (mkvec3 (255 / 256) (250 / 256) (205 / 256));
    Build_Component 0.9 (mkvec3 (170 / 256) (170 / 256) (170 / 256)) ].

(** [computeShading].  The hardcoded gradient has five components, so the
    assertions of [sample] hold on it ([gradient_sample_some] below) and the
    [None] branch is dead. *)
Definition computeShading (state : RenderState)
    (cameraDirection lightDirection lightColor : vec3) (hitInfo : HitInfo) : vec3 :=
  if enableShading (features state) then
    match shadingModel (features state) with
    | Lambertian =>
        computeLambertianModel state cameraDirection lightDirection lightColor hitInfo
    | Phong =>
        computePhongModel state cameraDirection lightDirection lightColor hitInfo
    | BlinnPhong =>
        computeBlinnPhongModel state cameraDirection lightDirection lightColor hitInfo
    | LinearGradientModel =>
        match computeLinearGradientModel state cameraDirection lightDirection
                lightColor hitInfo gradient with
        | Some c => c
        | None => vzero
        end
    end
  else (lightColor * sampleMaterialKd state hitInfo)%vec.

(** ** light.cpp *)

(** [sampleSegmentLight]: the pair of the reference return values
    [(position, color)]. *)
Definition sampleSegmentLight (sample : R) (light : SegmentLight) : vec3 * vec3 :=
  let position := (endpoint0 light + (endpoint1 light - endpoint0 light) *^ sample)%vec in
  let color := mix (seg_color0 light) (seg_color1 light) sample in
  (position, color).

(** [sampleParallelogramLight]: the pair [(position, color)]. *)
Definition sampleParallelogramLight (sample : vec2) (light : ParallelogramLight)
    : vec3 * vec3 :=
  let u := edge01 light in
  let v := edge02 light in
  let position := (v0 light + (u *^ vx sample + v *^ vy sample))%vec in
  let color :=
    (color0 light *^ (1 - vx sample) *^ (1 - vy sample)
     + color1 light *^ vx sample *^ (1 - vy sample)
     + color2 light *^ (1 - vx sample) *^ vy sample
     + color3 light *^ vx sample *^ vy sample)%vec in
  (position, color).

(** The shadow ray of [visibilityOfLightSampleBinary]. *)
Definition shadowRayBinary (lightPosition : vec3) (ray : Ray) : Ray :=
  let o := (origin ray + direction ray *^ t ray +^ 0.0001)%vec in
  Ray_from o (normalize (lightPosition - o)%vec).

Definition visibilityOfLightSampleBinary (state : RenderState)
    (lightPosition lightColor : vec3) (ray : Ray) (hitInfo : HitInfo) : bool :=
  let shadowRay := shadowRayBinary lightPosition ray in
  match bvh_intersect state shadowRay with
  | Some _ => false
  | None => true
  end.

(** The shadow ray of [visibilityOfLightSampleTransparency]. *)
Definition shadowRayTransparency (lightPosition : vec3) (ray : Ray) : Ray :=
  let o := (origin ray + direction ray *^ t ray +^ 0.001)%vec in
  Ray_from o (normalize (lightPosition - o)%vec).

Definition visibilityOfLightSampleTransparency (state : RenderState)
    (lightPosition lightColor : vec3) (ray : Ray) (hitInfo : HitInfo) : vec3 :=
  let shadowRay := shadowRayTransparency lightPosition ray in
  match bvh_intersect state shadowRay with
  | Some _ =>
      (lightColor * kd (material hitInfo) *^ (1 - transparency (material hitInfo)))%vec
  | None => lightColor
  end.

Definition computeContributionPointLight (state : RenderState) (light : PointLight)
    (ray : Ray) (hitInfo : HitInfo) : vec3 :=
  let intersectionPoint := (origin ray + direction ray *^ t ray +^ 0.0001)%vec in
  let lightDirection := normalize (position light - intersectionPoint)%vec in
  let shadowOrigin := (intersectionPoint +^ 0.001)%vec in
  let shadowRay := Ray_from shadowOrigin (normalize (position light - shadowOrigin)%vec) in
  let isLightVisible :=
    visibilityOfLightSampleBinary state (position light) (color light) ray hitInfo in
  if isLightVisible then
    if Rlt_dec (transparency (material hitInfo)) 1 then
      let transparentShadowColor :=
        visibilityOfLightSampleTransparency state (position light) (color light)
          shadowRay hitInfo in
      let viewDirection := (- direction ray)%vec in
      let shadingResult :=
        computeShading state viewDirection lightDirection (color light) hitInfo in
      (shadingResult *^ (1 - transparency (material hitInfo)) + transparentShadowColor)%vec
    else
      let viewDirection := (- direction ray)%vec in
      computeShading state viewDirection lightDirection (color light) hitInfo
  else vzero.

(** One iteration of the sampling loop of [computeContributionSegmentLight],
    for the drawn [sample]: what is added to [accumulatedLight]. *)
Definition segmentSample (state : RenderState) (light : SegmentLight) (ray : Ray)
    (hitInfo : HitInfo) (sample : R) : vec3 :=
  let '(lightPosition, lightColor) := sampleSegmentLight sample light in
  let intersectionPoint := (origin ray + direction ray *^ t ray)%vec in
  let lightDirection := normalize (lightPosition - intersectionPoint)%vec in
  let shadowRay :=
    Ray_from (intersectionPoint + normal hitInfo *^ 0.001)%vec lightDirection in
  let isLightVisible :=
    visibilityOfLightSampleBinary state lightPosition lightColor shadowRay hitInfo in
  if isLightVisible then
    let viewDirection := (- direction ray)%vec in
    computeShading state viewDirection lightDirection lightColor hitInfo
  else vzero.

(** [for (uint32_t i = 0; i < numSamples; ++i)]: [n] iterations remain. *)
Fixpoint segmentLoop (state : RenderState) (light : SegmentLight) (ray : Ray)
    (hitInfo : HitInfo) (n : nat) (accumulatedLight : vec3) (s : Sampler)
    : vec3 * Sampler :=
  match n with
  | O => (accumulatedLight, s)
  | S n' =>
      let '(sample, s1) := next_1d s in
      let accumulatedLight :=
        (accumulatedLight + segmentSample state light ray hitInfo sample)%vec in
      segmentLoop state light ray hitInfo n' accumulatedLight s1
  end.

Definition computeContributionSegmentLight (state : RenderState) (light : SegmentLight)
    (ray : Ray) (hitInfo : HitInfo) (numSamples : nat) (s : Sampler) : vec3 * Sampler :=
  let '(accumulatedLight, s') := segmentLoop state light ray hitInfo numSamples vzero s in
  if (0 <? numSamples)%nat
  then (accumulatedLight /^ INR numSamples, s')
  else (accumulatedLight, s').

(** One iteration of the sampling loop of
    [computeContributionParallelogramLight]. *)
Definition parallelogramSample (state : RenderState) (light : ParallelogramLight)
    (ray : Ray) (hitInfo : HitInfo) (sample : vec2) : vec3 :=
  let '(lightPosition, lightColor) := sampleParallelogramLight sample light in
  let intersectionPoint := (origin ray + direction ray *^ t ray +^ 0.001)%vec in
  let lightDirection := normalize (lightPosition - intersectionPoint)%vec in
  let shadowRay :=
    Ray_from intersectionPoint (normalize (lightPosition - intersectionPoint)%vec) in
  let isLightVisible :=
    visibilityOfLightSampleBinary state lightPosition lightColor shadowRay hitInfo in
  if isLightVisible then
    let viewDirection := (- direction ray)%vec in
    computeShading state viewDirection lightDirection lightColor hitInfo
  else vzero.

Fixpoint parallelogramLoop (state : RenderState) (light : ParallelogramLight)
    (ray : Ray) (hitInfo : HitInfo) (n : nat) (accumulatedLight : vec3) (s : Sampler)
    : vec3 * Sampler :=
  match n with
  | O => (accumulatedLight, s)
  | S n' =>
      let '(sample, s1) := next_2d s in
      let accumulatedLight :=
        (accumulatedLight + parallelogramSample state light ray hitInfo sample)%vec in
      parallelogramLoop state light ray hitInfo n' accumulatedLight s1
  end.

Definition computeContributionParallelogramLight (state : RenderState)
    (light : ParallelogramLight) (ray : Ray) (hitInfo : HitInfo) (numSamples : nat)
    (s : Sampler) : vec3 * Sampler :=
  let '(accumulatedLight, s') :=
    parallelogramLoop state light ray hitInfo numSamples vzero s in
  if (0 <? numSamples)%nat
  then (accumulatedLight /^ INR numSamples, s')
  else (accumulatedLight, s').

Definition visibilityOfLightSample (state : RenderState)
    (lightPosition lightColor : vec3) (ray : Ray) (hitInfo : HitInfo) : vec3 :=
  if negb (enableShadows (features state)) then lightColor
  else if negb (enableTransparency (features state)) then
    if visibilityOfLightSampleBinary state lightPosition lightColor ray hitInfo
    then lightColor else vzero
  else visibilityOfLightSampleTransparency state lightPosition lightColor ray hitInfo.

(** The body of the loop of [computeLightContribution] for one light. *)
Definition lightContribution (state : RenderState) (ray : Ray) (hitInfo : HitInfo)
    (light : Light) (s : Sampler) : vec3 * Sampler :=
  match light with
  | LPoint l => (computeContributionPointLight state l ray hitInfo, s)
  | LSegment l =>
      computeContributionSegmentLight state l ray hitInfo
        (numShadowSamples (features state)) s
  | LParallelogram l =>
      computeContributionParallelogramLight state l ray hitInfo
        (numShadowSamples (features state)) s
  end.

Fixpoint lightsLoop (state : RenderState) (ray : Ray) (hitInfo : HitInfo)
    (ls : list Light) (Lo : vec3) (s : Sampler) : vec3 * Sampler :=
  match ls with
  | [] => (Lo, s)
  | light :: ls' =>
      let '(c, s1) := lightContribution state ray hitInfo light s in
      lightsLoop state ray hitInfo ls' (Lo + c)%vec s1
  end.

Definition computeLightContribution (state : RenderState) (ray : Ray)
    (hitInfo : HitInfo) (s : Sampler) : vec3 * Sampler :=
  lightsLoop state ray hitInfo (lights state) vzero s.

(** ** recursive.cpp *)

(** A rendering computation: it may draw from the sampler, and [None] means
    that the recursion did not return within the budget of nested calls it was
    given ([renderRay_fuel] below). *)
Definition Render : Type := Sampler -> option (vec3 * Sampler).

Definition ret (c : vec3) : Render := fun s => Some (c, s).

Definition bind (m : Render) (k : vec3 -> Render) : Render :=
  fun s => match m s with
           | Some (c, s') => k c s'
           | None => None
           end.

Notation "c <- m ;; k" := (bind m (fun c => k))
  (at level 61, m at next level, right associativity).

(** [renderRay(state, ray, rayDepth)] as the components see it. *)
Definition RenderFn : Type := Ray -> Z -> Render.

(** [renderRayGlossyComponent] is defined in [extra.cpp], which is not among
    the sources, so it is a parameter of the renderer.  It receives what the
    other two components receive; as they do, it reaches [renderRay] only at
    [rayDepth + 1], which is the function it is handed.  It returns the
    updated [hitColor]. *)
Definition GlossyComponent : Type :=
  RenderState -> (Ray -> Render) -> Ray -> HitInfo -> vec3 -> Z -> Render.

Definition generateReflectionRay (ray : Ray) (hitInfo : HitInfo) : Ray :=
  let incidentDirection := normalize (direction ray) in
  let normal := normalize (normal hitInfo) in
  let reflectedDirection :=
    (incidentDirection - normal *^ (2 * dot incidentDirection normal))%vec in
  let intersectionPoint :=
    (origin ray + direction ray *^ t ray + normal *^ 0.001)%vec in
  Ray_from intersectionPoint reflectedDirection.

Definition generatePassthroughRay (ray : Ray) (hitInfo : HitInfo) : Ray :=
  mkRay (origin ray + direction ray *^ t ray +^ 0.001)%vec (direction ray) 1.

Definition renderRaySpecularComponent (renderRay : RenderFn) (state : RenderState)
    (ray : Ray) (hitInfo : HitInfo) (hitColor : vec3) (rayDepth : Z) : Render :=
  if enableReflections (features state) then
    let reflectedRay := generateReflectionRay ray hitInfo in
    if vec3_eq_dec (direction reflectedRay) vzero then ret hitColor
    else
      reflectedColor <- renderRay reflectedRay (rayDepth + 1)%Z ;;
      let specularColor := (ks (material hitInfo) * reflectedColor)%vec in
      ret (hitColor + specularColor)%vec
  else ret hitColor.

Definition renderRayTransparentComponent (renderRay : RenderFn) (state : RenderState)
    (ray : Ray) (hitInfo : HitInfo) (hitColor : vec3) (rayDepth : Z) : Render :=
  if enableTransparency (features state) then
    let passthroughRay := generatePassthroughRay ray hitInfo in
    if vec3_eq_dec (direction passthroughRay) vzero then ret hitColor
    else
      passthroughColor <- renderRay passthroughRay (rayDepth + 1)%Z ;;
      ret (mix hitColor passthroughColor (transparency (material hitInfo)))
  else ret hitColor.

(** [glm::any(glm::notEqual(hitInfo.material.ks, glm::vec3(0.0f)))] *)
Definition isReflective (hitInfo : HitInfo) : bool :=
  if vec3_eq_dec (ks (material hitInfo)) vzero then false else true.

(** [hitInfo.material.transparency != 1.f] *)
Definition isTransparent (hitInfo : HitInfo) : bool :=
  if Req_dec_T (transparency (material hitInfo)) 1 then false else true.

(** The body of [renderRay], its recursive calls going to [renderRay]. *)
Definition renderRay_body (renderRayGlossyComponent : GlossyComponent)
    (renderRay : RenderFn) (state : RenderState) (ray : Ray) (rayDepth : Z) : Render :=
  match bvh_intersect state ray with
  | None => ret (sampleEnvironmentMap state ray)
  | Some (t_hit, hitInfo) =>
      let ray := mkRay (origin ray) (direction ray) t_hit in
      Lo <- (fun s => Some (computeLightContribution state ray hitInfo s)) ;;
      if (rayDepth <? 6)%Z then
        Lo <- (if enableReflections (features state)
                  && negb (enableGlossyReflection (extra (features state)))
                  && isReflective hitInfo
               then renderRaySpecularComponent renderRay state ray hitInfo Lo rayDepth
               else ret Lo) ;;
        Lo <- (if enableReflections (features state)
                  && enableGlossyReflection (extra (features state))
                  && isReflective hitInfo
               then renderRayGlossyComponent state
                      (fun r => renderRay r (rayDepth + 1)%Z) ray hitInfo Lo rayDepth
               else ret Lo) ;;
        (if enableTransparency (features state) && isTransparent hitInfo
         then renderRayTransparentComponent renderRay state ray hitInfo Lo rayDepth
         else ret Lo)
      else ret Lo
  end.

(** [renderRay] with a budget of [fuel] nested calls. *)
Fixpoint renderRay_fuel (renderRayGlossyComponent : GlossyComponent) (fuel : nat)
    (state : RenderState) : RenderFn :=
  match fuel with
  | O => fun _ _ _ => None
  | S n =>
      renderRay_body renderRayGlossyComponent
        (renderRay_fuel renderRayGlossyComponent n state) state
  end.

(** [renderRay]: a call at [rayDepth] nests at most [6 - rayDepth] further
    calls ([renderRay_fuel_some] below), so this budget is never exhausted. *)
Definition renderRay (renderRayGlossyComponent : GlossyComponent)
    (state : RenderState) (ray : Ray) (rayDepth : Z) : Render :=
  renderRay_fuel renderRayGlossyComponent (S (Z.to_nat (6 - rayDepth))) state
    ray rayDepth.

(** [for (const auto& ray : rays) L += renderRay(state, ray, rayDepth);] *)
Fixpoint renderRaysLoop (renderRayGlossyComponent : GlossyComponent)
    (state : RenderState) (rays : list Ray) (rayDepth : Z) (L : vec3) : Render :=
  match rays with
  | [] => ret L
  | ray :: rest =>
      c <- renderRay renderRayGlossyComponent state ray rayDepth ;;
      renderRaysLoop renderRayGlossyComponent state rest rayDepth (L + c)%vec
  end.

Definition renderRays (renderRayGlossyComponent : GlossyComponent)
    (state : RenderState) (rays : list Ray) (rayDepth : Z) : Render :=
  L <- renderRaysLoop renderRayGlossyComponent state rays rayDepth vzero ;;
  ret (L /^ INR (length rays)).

(** ** Notions used in the statements *)

(** The invariant of a [LinearGradient]: at least two components, sorted
    ascending by [t], no two of them with the same [t]. *)
Definition gradient_wf (g : LinearGradient) : Prop :=
  (2 <= length g)%nat
  /\ StronglySorted (fun a b => comp_t a <= comp_t b) g
  /\ NoDup (map comp_t g).

(** Strictly ascending in [t]. *)
Definition t_lt (a b : Component) : Prop := comp_t a < comp_t b.

(** [state] with another feature configuration. *)
Definition set_features (state : RenderState) (f : Features) : RenderState :=
  {| lights := lights state;
     features := f;
     bvh_intersect := bvh_intersect state;
     sampleEnvironmentMap := sampleEnvironmentMap state |}.

(** The net formula of the point-light contribution,
    [shading * (1 - transparency) + attenuatedVisibility], with the shading
    and the attenuated visibility that [computeContributionPointLight]
    evaluates for the light. *)
Definition pointLightNetFormula (state : RenderState) (light : PointLight)
    (ray : Ray) (hitInfo : HitInfo) : vec3 :=
  let intersectionPoint := (origin ray + direction ray *^ t ray +^ 0.0001)%vec in
  let lightDirection := normalize (position light - intersectionPoint)%vec in
  let shadowOrigin := (intersectionPoint +^ 0.001)%vec in
  let shadowRay := Ray_from shadowOrigin (normalize (position light - shadowOrigin)%vec) in
  let shading :=
    computeShading state (- direction ray)%vec lightDirection (color light) hitInfo in
  let attenuatedVisibility :=
    visibilityOfLightSampleTransparency state (position light) (color light)
      shadowRay hitInfo in
  (shading *^ (1 - transparency (material hitInfo)) + attenuatedVisibility)%vec.

(** [f 0 + f 1 + ... + f (n - 1)] *)
Fixpoint vsum (f : nat -> vec3) (n : nat) : vec3 :=
  match n with
  | O => vzero
  | S n' => (vsum f n' + f n')%vec
  end.

(** What is assumed of the glossy component: it returns whenever the
    recursive calls it makes do. *)
Definition glossy_returns (g : GlossyComponent) : Prop :=
  forall state (rec : Ray -> Render) ray hitInfo hitColor rayDepth s,
    (forall r s', rec r s' <> None) ->
    g state rec ray hitInfo hitColor rayDepth s <> None.

(** The colours that [renderRay] returns for the rays of a batch, in order,
    each call starting from the sampler the previous one left. *)
Fixpoint renderEach (renderRayGlossyComponent : GlossyComponent)
    (state : RenderState) (rays : list Ray) (rayDepth : Z) (s : Sampler)
    : option (list vec3 * Sampler) :=
  match rays with
  | [] => Some ([], s)
  | ray :: rest =>
      match renderRay renderRayGlossyComponent state ray rayDepth s with
      | Some (c, s1) =>
          match renderEach renderRayGlossyComponent state rest rayDepth s1 with
          | Some (cs, s2) => Some (c :: cs, s2)
          | None => None
          end
      | None => None
      end
  end.

(** The arithmetic mean of a list of colours. *)
Definition vmean (cs : list vec3) : vec3 :=
  fold_left vadd cs vzero /^ INR (length cs).

(** Every channel is non-negative. *)
Definition nonneg (v : vec3) : Prop := 0 <= x v /\ 0 <= y v /\ 0 <= z v.

(** Channel by channel, [a] is at most [b]. *)
Definition vle (a b : vec3) : Prop := x a <= x b /\ y a <= y b /\ z a <= z b.

(** Every channel lies in [[0, 1]]. *)
Definition unit_range (v : vec3) : Prop := vle vzero v /\ vle v (vec3_of 1).

(** The number of sampler draws one shadow sample of a light takes. *)
Definition drawsPerSample (light : Light) : nat :=
  match light with
  | LPoint _ => 0
  | LSegment _ => 1
  | LParallelogram _ => 2
  end.

(** [state] with another list of lights. *)
Definition set_lights (state : RenderState) (ls : list Light) : RenderState :=
  {| lights := ls;
     features := features state;
     bvh_intersect := bvh_intersect state;
     sampleEnvironmentMap := sampleEnvironmentMap state |}.

(** [state] with other values of the flags [enableShadows],
    [enableTransparency] and [enableReflections], every other option kept. *)
Definition set_shadow_flags (state : RenderState) (shadows transp refl : bool)
    : RenderState :=
  set_features state
    {| enableShading := enableShading (features state);
       shadingModel := shadingModel (features state);
       enableTextureMapping := enableTextureMapping (features state);
       enableBilinearTextureFiltering := enableBilinearTextureFiltering (features state);
       enableShadows := shadows;
       enableTransparency := transp;
       enableReflections := refl;
       extra := extra (features state);
       numShadowSamples := numShadowSamples (features state) |}.

(** Two render states with the same BVH and the same options among those
    that direct lighting reads: the shading options and the number of shadow
    samples. *)
Definition same_lighting (st st' : RenderState) : Prop :=
  bvh_intersect st = bvh_intersect st'
  /\ enableShading (features st) = enableShading (features st')
  /\ shadingModel (features st) = shadingModel (features st')
  /\ enableTextureMapping (features st) = enableTextureMapping (features st')
  /\ enableBilinearTextureFiltering (features st)
     = enableBilinearTextureFiltering (features st')
  /\ numShadowSamples (features st) = numShadowSamples (features st').

(** A scene in which every ray hits something: a closed room. *)
Definition enclosed (state : RenderState) : Prop :=
  forall r, bvh_intersect state r <> None.

(** ** A small scene on which the statements are exercised

    One surface, the plane [z = 0] (a floor), seen by a camera above it that
    looks straight down. *)

Definition flat_features (shadows transparency : bool) (samples : nat) : Features :=
  {| enableShading := false;
     shadingModel := Lambertian;
     enableTextureMapping := false;
     enableBilinearTextureFiltering := false;
     enableShadows := shadows;
     enableTransparency := transparency;
     enableReflections := false;
     extra := {| enableGlossyReflection := false |};
     numShadowSamples := samples |}.

Definition floor_material (specular : vec3) (shine alpha : R) : Material :=
  {| kd := vec3_of 1;
     ks := specular;
     shininess := shine;
     transparency := alpha;
     kdTexture := None |}.

Definition floor_hit (m : Material) : HitInfo :=
  {| normal := mkvec3 0 0 1; texCoord := mkvec2 0 0; material := m |}.

(** Ray against the plane [z = 0]: the hit is at [-o.z / d.z] along the ray,
    reported when it lies ahead of the origin and before [r.t]. *)
Definition floor_intersect (m : Material) (r : Ray) : option (R * HitInfo) :=
  if Req_dec_T (z (direction r)) 0 then None
  else
    let t_hit := - z (origin r) / z (direction r) in
    if Rlt_dec 0 t_hit then
      if Rlt_dec t_hit (t r) then Some (t_hit, floor_hit m) else None
    else None.

Definition floor_scene (m : Material) (ls : list Light) (f : Features) : RenderState :=
  {| lights := ls;
     features := f;
     bvh_intersect := floor_intersect m;
     sampleEnvironmentMap := fun _ => vec3_of 0.5 |}.

(** The camera ray, and the same ray once it has hit the floor. *)
Definition camera_ray : Ray := Ray_from (mkvec3 0 0 1) (mkvec3 0 0 (-1)).

Definition camera_ray_hit : Ray := mkRay (mkvec3 0 0 1) (mkvec3 0 0 (-1)) 1.

(** A ray that leaves the scene. *)
Definition sky_ray : Ray := Ray_from (mkvec3 0 0 1) (mkvec3 0 0 1).

(** A point light under the floor, at the foot of the shadow ray. *)
Definition buried_light : PointLight :=
  {| position := mkvec3 0.0001 0.0001 (-1); color := vec3_of 1 |}.

(** A light above the floor, over the foot of the attenuated shadow ray. *)
Definition lamp : vec3 := mkvec3 0.001 0.001 2.

(** A vertical segment light above the floor, dark at its lower end. *)
Definition pole_light : SegmentLight :=
  {| endpoint0 := mkvec3 0 0 2;
     endpoint1 := mkvec3 0 0 3;
     seg_color0 := vzero;
     seg_color1 := vec3_of 1 |}.

Definition panel_light : ParallelogramLight :=
  {| v0 := mkvec3 0 0 2;
     edge01 := mkvec3 1 0 0;
     edge02 := mkvec3 0 1 0;
     color0 := vec3_of 1;
     color1 := mkvec3 1 0 0;
     color2 := mkvec3 0 1 0;
     color3 := mkvec3 0 0 1 |}.

(** A sampler whose first draw is [0] and whose later draws are [1/2]. *)
Definition step_sampler : Sampler :=
  {| draws := fun n => match n with O => 0 | S _ => 0.5 end; cursor := 0 |}.

Definition unlit_scene : RenderState :=
  floor_scene (floor_material vzero 0 1) [] (flat_features false false 0).

(** The floor lit by the pole light, one shadow sample per area light. *)
Definition pole_scene : RenderState :=
  floor_scene (floor_material vzero 0 1) [LSegment pole_light]
    (flat_features false false 1).

(** A mirroring, half-transparent floor with every recursive feature on. *)
Definition mirror_features (glossy : bool) : Features :=
  {| enableShading := true;
     shadingModel := Phong;
     enableTextureMapping := false;
     enableBilinearTextureFiltering := false;
     enableShadows := true;
     enableTransparency := true;
     enableReflections := true;
     extra := {| enableGlossyReflection := glossy |};
     numShadowSamples := 2 |}.

Definition mirror_scene (glossy : bool) : RenderState :=
  floor_scene (floor_material (vec3_of 1) 8 0.5)
    [LPoint buried_light; LSegment pole_light; LParallelogram panel_light]
    (mirror_features glossy).

(** A half-transparent floor with transparency enabled and no light: the
    passthrough ray leaves the hit point displaced by [0.001] on every axis,
    so above the floor again, and hits it once more. *)
Definition glass_scene : RenderState :=
  floor_scene (floor_material vzero 0 0.5) [] (flat_features false true 0).

(** A ray that looks straight down at the floor from above, within reach. *)
Definition looks_down (r : Ray) : Prop :=
  direction r = mkvec3 0 0 (-1) /\ 0 < z (origin r) < t r.

(** A surface seen from behind: camera and light both below a normal that
    points up, a specular material of shininess [shine]. *)
Definition below : vec3 := mkvec3 0 0 (-1).

Definition back_hit (shine : R) : HitInfo :=
  floor_hit (floor_material (vec3_of 1) shine 1).

(** A closed room: whatever the ray, a wall is hit at distance [1]. *)
Definition room_scene (ls : list Light) (f : Features) : RenderState :=
  {| lights := ls;
     features := f;
     bvh_intersect := fun _ => Some (1, floor_hit (floor_material vzero 0 1));
     sampleEnvironmentMap := fun _ => vec3_of 0.5 |}.

(** A segment light of one colour. *)
Definition white_pole : SegmentLight :=
  {| endpoint0 := mkvec3 0 0 2;
     endpoint1 := mkvec3 0 0 3;
     seg_color0 := vec3_of 1;
     seg_color1 := vec3_of 1 |}.

(** A glossy component that makes no recursive call. *)
Definition glossy_off : GlossyComponent :=
  fun _ _ _ _ hitColor _ => ret hitColor.

(** A glossy component that averages two recursive reflection rays. *)
Definition glossy_two : GlossyComponent :=
  fun _ rec ray hitInfo hitColor _ =>
    a <- rec (generateReflectionRay ray hitInfo) ;;
    b <- rec (generateReflectionRay ray hitInfo) ;;
    ret (hitColor + ks (material hitInfo) * ((a + b) /^ 2))%vec.

(** A two-colour gradient. *)
Definition two_tone : LinearGradient :=
  [ Build_Component (-1) vzero; Build_Component 1 (vec3_of 1) ].

(** * Properties *)

(** ** Vectors and the glm functions *)

Lemma vec3_ext (a b : vec3) : x a = x b -> y a = y b -> z a = z b -> a = b.
Proof. destruct a, b; simpl; intros; subst; reflexivity. Qed.

Ltac vec_unfold :=
  cbn [x y z vx vy vadd vsub vmul vneg vscale vdiv vadds mix vzero vec3_of fst snd].

Ltac vec_eq := apply vec3_ext; vec_unfold; try ring.

Lemma fmax_comm (a b : R) : fmax a b = fmax b a.
Proof. unfold fmax; destruct (Rlt_dec a b), (Rlt_dec b a); lra. Qed.

Lemma fmax_nonneg_l (a : R) : 0 <= fmax 0 a.
Proof. unfold fmax; destruct (Rlt_dec 0 a); lra. Qed.

Lemma fmax_nonpos (a : R) : a <= 0 -> fmax 0 a = 0.
Proof. unfold fmax; destruct (Rlt_dec 0 a); lra. Qed.

Lemma powf_1 (b : R) : 0 <= b -> powf b 1 = b.
Proof.
  intros Hb; unfold powf.
  destruct (Req_dec_T 1 0); [lra |].
  destruct (Rlt_dec 0 b); [apply Rpower_1; assumption | lra].
Qed.

Lemma powf_0_r (b : R) : powf b 0 = 1.
Proof. unfold powf; destruct (Req_dec_T 0 0); [reflexivity | lra]. Qed.

Lemma powf_0_l (e : R) : 0 < e -> powf 0 e = 0.
Proof.
  intros He; unfold powf.
  destruct (Req_dec_T e 0); [lra |].
  destruct (Rlt_dec 0 0); [lra | reflexivity].
Qed.

(** [normalize] of a vector along the z axis. *)
Lemma normalize_z_up (v : vec3) :
  x v = 0 -> y v = 0 -> 0 < z v -> normalize v = mkvec3 0 0 1.
Proof.
  destruct v as [a b c]; simpl; intros -> -> Hc.
  unfold normalize, dot; simpl.
  replace (0 * 0 + 0 * 0 + c * c) with (c * c) by ring.
  rewrite sqrt_square by lra.
  vec_eq. simpl. field. lra.
Qed.

Lemma normalize_z_down (v : vec3) :
  x v = 0 -> y v = 0 -> z v < 0 -> normalize v = mkvec3 0 0 (-1).
Proof.
  destruct v as [a b c]; simpl; intros -> -> Hc.
  unfold normalize, dot; simpl.
  replace (0 * 0 + 0 * 0 + c * c) with ((- c) * (- c)) by ring.
  rewrite sqrt_square by lra.
  vec_eq. simpl. field. lra.
Qed.

(** No component of a normalized vector is below [-1]. *)
Lemma normalize_z_lower (v : vec3) : -1 <= z (normalize v).
Proof.
  unfold normalize; vec_unfold.
  assert (Hs : Rabs (z v) <= sqrt (dot v v)).
  { rewrite <- sqrt_Rsqr_abs. apply sqrt_le_1_alt.
    unfold dot, Rsqr. nra. }
  destruct (Req_dec_T (sqrt (dot v v)) 0) as [E | E].
  - rewrite E, Rinv_0. lra.
  - assert (Hp : 0 < sqrt (dot v v)) by (pose proof (sqrt_pos (dot v v)); lra).
    assert (Hz : - sqrt (dot v v) <= z v).
    { unfold Rabs in Hs. destruct (Rcase_abs (z v)); lra. }
    apply Rmult_le_reg_r with (sqrt (dot v v)); [assumption |].
    rewrite Rmult_assoc, Rinv_l by assumption. lra.
Qed.

(** ** Light sampling *)

(** C7: for every parallelogram light and every sample [(sx, sy)],
    [sampleParallelogramLight] returns the position
    [v0 + edge01 * sx + edge02 * sy] and the colour
    [color0 (1-sx)(1-sy) + color1 sx (1-sy) + color2 (1-sx) sy + color3 sx sy];
    the sample [(0,0)] yields [(v0, color0)] and the sample [(1,1)] yields
    [(v0 + edge01 + edge02, color3)]. *)
Theorem sampleParallelogramLight_bilinear (light : ParallelogramLight) (sx sy : R) :
  sampleParallelogramLight (mkvec2 sx sy) light =
    ((v0 light + edge01 light *^ sx + edge02 light *^ sy)%vec,
     (color0 light *^ ((1 - sx) * (1 - sy)) + color1 light *^ (sx * (1 - sy))
      + color2 light *^ ((1 - sx) * sy) + color3 light *^ (sx * sy))%vec)
  /\ sampleParallelogramLight (mkvec2 0 0) light = (v0 light, color0 light)
  /\ sampleParallelogramLight (mkvec2 1 1) light =
       ((v0 light + edge01 light + edge02 light)%vec, color3 light).
Proof.
  unfold sampleParallelogramLight; cbn [vx vy].
  repeat split; f_equal; vec_eq.
Qed.

(** ** Shading models *)

(** C4: [computePhongModel] returns
    [(kd * NdotL) * lightColor * NdotL + ks * lightColor * max(0, dot(R, V))^1]
    with [R = reflect(-L, N)] and [N], [L], [V] the normalized normal, light
    direction and camera direction, [kd] being the diffuse colour that
    [sampleMaterialKd] resolves.  The diffuse term is the classic one times a
    second cosine, and the shininess of the material plays no part. *)
Theorem computePhongModel_formula (state : RenderState)
    (cameraDirection lightDirection lightColor : vec3) (hitInfo : HitInfo) :
  let N := normalize (normal hitInfo) in
  let L := normalize lightDirection in
  let V := normalize cameraDirection in
  let Rv := reflect (- L)%vec N in
  let NdotL := fmax 0 (dot N L) in
  let kdS := sampleMaterialKd state hitInfo in
  let classicDiffuse := (kdS * lightColor *^ NdotL)%vec in
  computePhongModel state cameraDirection lightDirection lightColor hitInfo =
    ((kdS *^ NdotL) * lightColor *^ NdotL
     + ks (material hitInfo) * lightColor *^ powf (fmax 0 (dot Rv V)) 1)%vec
  /\ ((kdS *^ NdotL) * lightColor *^ NdotL)%vec = classicDiffuse *^ NdotL
  /\ forall shine : R,
       computePhongModel state cameraDirection lightDirection lightColor
         {| normal := normal hitInfo;
            texCoord := texCoord hitInfo;
            material := {| kd := kd (material hitInfo);
                           ks := ks (material hitInfo);
                           shininess := shine;
                           transparency := transparency (material hitInfo);
                           kdTexture := kdTexture (material hitInfo) |} |} =
       computePhongModel state cameraDirection lightDirection lightColor hitInfo.
Proof.
  intros N L V Rv NdotL kdS classicDiffuse.
  split; [| split].
  - unfold computePhongModel.
    rewrite powf_1 by apply fmax_nonneg_l.
    rewrite (fmax_comm (dot _ _) 0), (fmax_comm (dot (reflect _ _) _) 0).
    reflexivity.
  - subst classicDiffuse. vec_eq.
  - intros shine. reflexivity.
Qed.

(** The specular term of [computeBlinnPhongModel] when the half vector is
    not above the surface: the power is taken of a zero base. *)
Lemma computeBlinnPhongModel_below (state : RenderState)
    (cameraDirection lightDirection lightColor : vec3) (hitInfo : HitInfo) :
  let N := normalize (normal hitInfo) in
  let L := normalize lightDirection in
  let V := normalize cameraDirection in
  let H := normalize (L + V)%vec in
  dot N H <= 0 ->
  computeBlinnPhongModel state cameraDirection lightDirection lightColor hitInfo =
    (sampleMaterialKd state hitInfo * lightColor *^ fmax 0 (dot N L)
     + ks (material hitInfo) * lightColor *^ powf 0 (shininess (material hitInfo)))%vec.
Proof.
  intros N L V H Hle. unfold computeBlinnPhongModel.
  fold N L V. fold H. rewrite (fmax_nonpos _ Hle), (fmax_comm (dot N L) 0).
  reflexivity.
Qed.

(** C5, as the code has it: when [dot(N, H) <= 0], the result of
    [computeBlinnPhongModel] is the diffuse term
    [kd * lightColor * max(0, dot(N, L))] alone for every shininess [> 0];
    for shininess [0] the power [pow(0, 0)] is [1] and the specular term is
    [ks * lightColor]. *)
Theorem computeBlinnPhongModel_specular_zero (state : RenderState)
    (cameraDirection lightDirection lightColor : vec3) (hitInfo : HitInfo) :
  let N := normalize (normal hitInfo) in
  let L := normalize lightDirection in
  let V := normalize cameraDirection in
  let H := normalize (L + V)%vec in
  let diffuse := (sampleMaterialKd state hitInfo * lightColor *^ fmax 0 (dot N L))%vec in
  dot N H <= 0 ->
  (0 < shininess (material hitInfo) ->
   computeBlinnPhongModel state cameraDirection lightDirection lightColor hitInfo
     = diffuse)
  /\ (shininess (material hitInfo) = 0 ->
      computeBlinnPhongModel state cameraDirection lightDirection lightColor hitInfo
        = (diffuse + ks (material hitInfo) * lightColor)%vec).
Proof.
  intros N L V H diffuse Hle.
  pose proof (computeBlinnPhongModel_below state cameraDirection lightDirection
                lightColor hitInfo Hle) as E.
  subst diffuse H N L V.
  split; intros Hs; rewrite E.
  - rewrite powf_0_l by assumption. vec_eq.
  - rewrite Hs, powf_0_r. f_equal. vec_eq.
Qed.

(** C5 fails at shininess [0]: seen from behind with the light behind,
    [dot(N, H) = -1], yet the result is not the diffuse term alone. *)
Lemma computeBlinnPhongModel_shininess_zero_counterexample :
  dot (normalize (normal (back_hit 0))) (normalize (normalize below + normalize below)) <= 0
  /\ 0 <= shininess (material (back_hit 0))
  /\ computeBlinnPhongModel unlit_scene below below (vec3_of 1) (back_hit 0)
     <> (sampleMaterialKd unlit_scene (back_hit 0) * vec3_of 1
         *^ fmax 0 (dot (normalize (normal (back_hit 0))) (normalize below)))%vec.
Proof.
  assert (Hb : normalize below = mkvec3 0 0 (-1))
    by (apply normalize_z_down; simpl; lra).
  assert (Hh : normalize (normalize below + normalize below) = mkvec3 0 0 (-1))
    by (rewrite Hb; apply normalize_z_down; simpl; lra).
  assert (Hn : normalize (normal (back_hit 0)) = mkvec3 0 0 1)
    by (apply normalize_z_up; simpl; lra).
  assert (Hle : dot (normalize (normal (back_hit 0)))
                  (normalize (normalize below + normalize below)) <= 0)
    by (rewrite Hn, Hh; unfold dot; simpl; lra).
  split; [exact Hle |]. split; [simpl; lra |].
  rewrite (computeBlinnPhongModel_below unlit_scene below below (vec3_of 1)
             (back_hit 0) Hle).
  change (shininess (material (back_hit 0))) with 0. rewrite powf_0_r.
  intros E. apply (f_equal x) in E. revert E. vec_unfold. simpl. lra.
Qed.

Lemma computeBlinnPhongModel_specular_zero_witness :
  computeBlinnPhongModel unlit_scene below below (vec3_of 1) (back_hit 32)
  = (sampleMaterialKd unlit_scene (back_hit 32) * vec3_of 1
     *^ fmax 0 (dot (normalize (normal (back_hit 32))) (normalize below)))%vec.
Proof.
  apply (computeBlinnPhongModel_specular_zero unlit_scene below below (vec3_of 1)
           (back_hit 32)).
  - replace (normalize below) with (mkvec3 0 0 (-1))
      by (symmetry; apply normalize_z_down; simpl; lra).
    replace (normalize (mkvec3 0 0 (-1) + mkvec3 0 0 (-1))) with (mkvec3 0 0 (-1))
      by (symmetry; apply normalize_z_down; simpl; lra).
    replace (normalize (normal (back_hit 32))) with (mkvec3 0 0 1)
      by (symmetry; apply normalize_z_up; simpl; lra).
    unfold dot; simpl; lra.
  - simpl; lra.
Defined.

(** ** Gradient sampling *)

Lemma gradient_wf_strict (g : LinearGradient) :
  StronglySorted (fun a b => comp_t a <= comp_t b) g ->
  NoDup (map comp_t g) ->
  StronglySorted t_lt g.
Proof.
  induction 1 as [| a l Hs IH Hall]; intros Hnd; constructor.
  - apply IH. inversion Hnd; assumption.
  - inversion Hnd as [| ? ? Hnotin _]; subst.
    rewrite Forall_forall in *. intros b Hb.
    specialize (Hall b Hb).
    assert (comp_t a <> comp_t b).
    { intros E. apply Hnotin. rewrite E. apply in_map. assumption. }
    unfold t_lt. lra.
Qed.

Lemma sorted_nth_lt (l : list Component) :
  StronglySorted t_lt l ->
  forall i j a b, (i < j)%nat ->
    nth_error l i = Some a -> nth_error l j = Some b -> comp_t a < comp_t b.
Proof.
  induction 1 as [| c l Hs IH Hall]; intros i j a b Hij Ha Hb.
  - destruct i; discriminate.
  - destruct j as [| j]; [lia |]. simpl in Hb.
    destruct i as [| i]; simpl in Ha.
    + injection Ha as <-. rewrite Forall_forall in Hall.
      apply Hall. eapply nth_error_In; eassumption.
    + apply (IH i j); [lia | assumption | assumption].
Qed.

Lemma sorted_nth_le (l : list Component) :
  StronglySorted t_lt l ->
  forall i j a b, (i <= j)%nat ->
    nth_error l i = Some a -> nth_error l j = Some b -> comp_t a <= comp_t b.
Proof.
  intros Hs i j a b Hij Ha Hb.
  destruct (Nat.eq_dec i j) as [-> | Hne].
  - rewrite Ha in Hb. injection Hb as <-. lra.
  - apply Rlt_le. apply (sorted_nth_lt l Hs i j); [lia | assumption | assumption].
Qed.

Lemma nth_error_last_index (l : list Component) (d : Component) :
  l <> [] -> nth_error l (length l - 1) = Some (last l d).
Proof.
  induction l as [| a l IH]; intros Hne; [contradiction |].
  destruct l as [| b l]; [reflexivity |].
  specialize (IH ltac:(discriminate)).
  replace (length (a :: b :: l) - 1)%nat with (S (length (b :: l) - 1))
    by (simpl; lia).
  exact IH.
Qed.

(** The search returns the interpolation of the first pair that brackets
    [ti]; in an ascending gradient that is the pair [a], [b] with
    [a.t < ti <= b.t]. *)
Lemma sample_search_bracket (ti : R) :
  forall (i : nat) (l : list Component) (a b : Component),
    StronglySorted t_lt l ->
    nth_error l i = Some a -> nth_error l (S i) = Some b ->
    comp_t a < ti <= comp_t b ->
    sample_search l ti =
      Some (mix (comp_color a) (comp_color b) ((ti - comp_t a) / (comp_t b - comp_t a))).
Proof.
  induction i as [| i IH]; intros l a b Hs Ha Hb Hti.
  - destruct l as [| a' [| b' rest]]; [discriminate Ha | discriminate Hb |].
    simpl in Ha, Hb. injection Ha as <-. injection Hb as <-.
    simpl. destruct (Rle_dec (comp_t a') ti); [| lra].
    destruct (Rle_dec ti (comp_t b')); [reflexivity | lra].
  - destruct l as [| c [| c' rest]];
      [discriminate Ha | simpl in Ha; destruct i; discriminate Ha |].
    assert (Hs' : StronglySorted t_lt (c' :: rest)) by (inversion Hs; assumption).
    assert (Hc' : comp_t c' < ti).
    { assert (comp_t c' <= comp_t a).
      { apply (sorted_nth_le (c' :: rest) Hs' 0 i); [lia | reflexivity | exact Ha]. }
      lra. }
    change (sample_search (c :: c' :: rest) ti) with
      (if Rle_dec (comp_t c) ti then
         if Rle_dec ti (comp_t c') then
           Some (mix (comp_color c) (comp_color c')
                   ((ti - comp_t c) / (comp_t c' - comp_t c)))
         else sample_search (c' :: rest) ti
       else sample_search (c' :: rest) ti).
    destruct (Rle_dec (comp_t c) ti);
      [destruct (Rle_dec ti (comp_t c')); [lra |] |];
      apply (IH (c' :: rest) a b Hs' Ha Hb Hti).
Qed.

Lemma LinearGradient_sample_unfold (g : LinearGradient) (front : Component) (ti : R) :
  (2 <= length g)%nat -> nth_error g 0 = Some front ->
  LinearGradient_sample g ti =
    if Rle_dec ti (comp_t front) then Some (comp_color front)
    else if Rge_dec ti (comp_t (last g front)) then Some (comp_color (last g front))
    else sample_search g ti.
Proof.
  destruct g as [| a [| b rest]]; simpl length; intros Hlen Hf; try lia.
  injection Hf as <-. reflexivity.
Qed.

(** C6: on a gradient with at least two components, ascending in [t] with
    distinct [t] values, [sample ti] is the first component's colour when
    [ti] is at most the smallest [t], the last component's colour when [ti] is
    at least the largest [t], the colour of the component whose [t] is [ti],
    and otherwise [mix(colorA, colorB, (ti - ta) / (tb - ta))] for the two
    neighbouring components [a], [b] with [ta < ti < tb]. *)
Theorem LinearGradient_sample_spec (g : LinearGradient) (ti : R) :
  gradient_wf g ->
  (forall c, nth_error g 0 = Some c -> ti <= comp_t c ->
     LinearGradient_sample g ti = Some (comp_color c))
  /\ (forall c, nth_error g (length g - 1) = Some c -> ti >= comp_t c ->
        LinearGradient_sample g ti = Some (comp_color c))
  /\ (forall k c, nth_error g k = Some c -> comp_t c = ti ->
        LinearGradient_sample g ti = Some (comp_color c))
  /\ (forall i a b, nth_error g i = Some a -> nth_error g (S i) = Some b ->
        comp_t a < ti < comp_t b ->
        LinearGradient_sample g ti =
          Some (mix (comp_color a) (comp_color b)
                  ((ti - comp_t a) / (comp_t b - comp_t a)))).
Proof.
  intros (Hlen & Hsorted & Hnd).
  pose proof (gradient_wf_strict g Hsorted Hnd) as Hs.
  destruct g as [| front g']; [simpl in Hlen; lia |].
  pose proof (LinearGradient_sample_unfold (front :: g') front ti Hlen eq_refl) as E.
  assert (Hlast : nth_error (front :: g') (length (front :: g') - 1)
                  = Some (last (front :: g') front))
    by (apply nth_error_last_index; discriminate).
  assert (Hfront : nth_error (front :: g') 0 = Some front) by reflexivity.
  remember (front :: g') as g eqn:Eg. clear Eg g'.
  set (back := last g front) in *.
  assert (Hfl : comp_t front < comp_t back).
  { apply (sorted_nth_lt g Hs 0 (length g - 1)); [lia | exact Hfront | exact Hlast]. }
  assert (Hfirst : forall c, nth_error g 0 = Some c -> ti <= comp_t c ->
            LinearGradient_sample g ti = Some (comp_color c)).
  { intros c Hc Hle. assert (c = front) by congruence. subst c.
    rewrite E. destruct (Rle_dec ti (comp_t front)); [reflexivity | lra]. }
  assert (Hback : forall c, nth_error g (length g - 1) = Some c -> ti >= comp_t c ->
            LinearGradient_sample g ti = Some (comp_color c)).
  { intros c Hc Hge. assert (c = back) by congruence. subst c.
    rewrite E. destruct (Rle_dec ti (comp_t front)); [lra |].
    destruct (Rge_dec ti (comp_t back)); [reflexivity | lra]. }
  assert (Hinner : forall i a b, nth_error g i = Some a -> nth_error g (S i) = Some b ->
            comp_t a < ti <= comp_t b -> ti < comp_t back ->
            LinearGradient_sample g ti =
              Some (mix (comp_color a) (comp_color b)
                      ((ti - comp_t a) / (comp_t b - comp_t a)))).
  { intros i a b Ha Hb Hti Hlt.
    assert (comp_t front <= comp_t a)
      by (apply (sorted_nth_le g Hs 0 i); [lia | exact Hfront | exact Ha]).
    rewrite E. destruct (Rle_dec ti (comp_t front)); [lra |].
    destruct (Rge_dec ti (comp_t back)); [lra |].
    apply (sample_search_bracket ti i g a b Hs Ha Hb Hti). }
  assert (Hbound : forall k c, nth_error g k = Some c -> (k <= length g - 1)%nat).
  { intros k c Hc. assert (Hn : nth_error g k <> None) by congruence.
    apply nth_error_Some in Hn. lia. }
  split; [exact Hfirst |]. split; [exact Hback |]. split.
  - intros k c Hc Ht.
    destruct k as [| k]; [apply Hfirst; [exact Hc | lra] |].
    pose proof (Hbound _ _ Hc) as Hk.
    destruct (Nat.eq_dec (S k) (length g - 1)) as [Ek | Hne].
    + apply Hback; [rewrite <- Ek; exact Hc | lra].
    + assert (comp_t c < comp_t back)
        by (apply (sorted_nth_lt g Hs (S k) (length g - 1));
            [lia | assumption | assumption]).
      destruct (nth_error g k) as [a |] eqn:Ha.
      * assert (Hak : comp_t a < comp_t c)
          by (apply (sorted_nth_lt g Hs k (S k)); [lia | exact Ha | exact Hc]).
        rewrite (Hinner k a c Ha Hc) by lra.
        f_equal. rewrite Ht.
        replace ((ti - comp_t a) / (ti - comp_t a)) with 1 by (field; lra).
        vec_eq.
      * apply nth_error_None in Ha. lia.
  - intros i a b Ha Hb Hti.
    pose proof (Hbound _ _ Hb) as Hi.
    assert (comp_t b <= comp_t back)
      by (apply (sorted_nth_le g Hs (S i) (length g - 1)); assumption).
    apply Hinner with i; [assumption | assumption | lra | lra].
Qed.

Lemma two_tone_wf : gradient_wf two_tone.
Proof.
  unfold gradient_wf, two_tone. split; [simpl; lia |]. split.
  - repeat constructor. simpl. lra.
  - simpl. constructor.
    + simpl. intros [E | []]. lra.
    + constructor; [intros [] | constructor].
Qed.

Lemma LinearGradient_sample_spec_witness :
  LinearGradient_sample two_tone 0 = Some (mix vzero (vec3_of 1) ((0 - -1) / (1 - -1)))
  /\ LinearGradient_sample two_tone (-1) = Some vzero
  /\ LinearGradient_sample two_tone 1 = Some (vec3_of 1).
Proof.
  split; [| split].
  - apply (proj2 (proj2 (proj2 (LinearGradient_sample_spec two_tone 0 two_tone_wf)))
             0%nat (Build_Component (-1) vzero) (Build_Component 1 (vec3_of 1)));
      [reflexivity | reflexivity | simpl; lra].
  - apply (proj1 (LinearGradient_sample_spec two_tone (-1) two_tone_wf)
             (Build_Component (-1) vzero)); [reflexivity | simpl; lra].
  - apply (proj1 (proj2 (LinearGradient_sample_spec two_tone 1 two_tone_wf))
             (Build_Component 1 (vec3_of 1))); [reflexivity | simpl; lra].
Defined.

(** The assertions of [sample] hold on every gradient with two or more
    components: the search finds a bracket for every [ti] strictly between the
    first and the last [t]. *)
Lemma sample_search_some (ti : R) (d : Component) :
  forall l : list Component,
    (2 <= length l)%nat -> comp_t (hd d l) < ti -> ti <= comp_t (last l d) ->
    sample_search l ti <> None.
Proof.
  induction l as [| a l IH]; simpl length; intros Hlen Hlo Hhi; [lia |].
  destruct l as [| b rest]; [simpl in Hlen; lia |].
  change (sample_search (a :: b :: rest) ti) with
    (if Rle_dec (comp_t a) ti then
       if Rle_dec ti (comp_t b) then
         Some (mix (comp_color a) (comp_color b) ((ti - comp_t a) / (comp_t b - comp_t a)))
       else sample_search (b :: rest) ti
     else sample_search (b :: rest) ti).
  simpl hd in Hlo.
  destruct (Rle_dec (comp_t a) ti); [| lra].
  destruct (Rle_dec ti (comp_t b)); [discriminate |].
  destruct rest as [| c rest]; [simpl in Hhi; lra |].
  apply IH; [simpl; lia | simpl; lra | exact Hhi].
Qed.

Lemma LinearGradient_sample_some (g : LinearGradient) (ti : R) :
  (2 <= length g)%nat -> LinearGradient_sample g ti <> None.
Proof.
  intros Hlen. destruct g as [| front g']; [simpl in Hlen; lia |].
  rewrite (LinearGradient_sample_unfold (front :: g') front ti Hlen eq_refl).
  destruct (Rle_dec ti (comp_t front)); [discriminate |].
  destruct (Rge_dec ti (comp_t (last (front :: g') front))); [discriminate |].
  apply (sample_search_some ti front); [exact Hlen | simpl; lra | lra].
Qed.

Lemma gradient_sample_some (ti : R) : LinearGradient_sample gradient ti <> None.
Proof. apply LinearGradient_sample_some. simpl. lia. Qed.

(** ** The floor scene *)

Lemma floor_intersect_hit (m : Material) (r : Ray) :
  z (direction r) < 0 -> 0 < z (origin r) ->
  - z (origin r) / z (direction r) < t r ->
  floor_intersect m r = Some (- z (origin r) / z (direction r), floor_hit m).
Proof.
  intros Hd Ho Ht. unfold floor_intersect.
  destruct (Req_dec_T (z (direction r)) 0); [lra |].
  assert (0 < - z (origin r) / z (direction r)).
  { replace (- z (origin r) / z (direction r))
      with (z (origin r) * / (- z (direction r))) by (field; lra).
    apply Rmult_lt_0_compat; [lra |]. apply Rinv_0_lt_compat. lra. }
  destruct (Rlt_dec 0 (- z (origin r) / z (direction r))); [| lra].
  destruct (Rlt_dec (- z (origin r) / z (direction r)) (t r)); [reflexivity | lra].
Qed.

Lemma floor_intersect_away (m : Material) (r : Ray) :
  0 <= z (origin r) -> 0 <= z (direction r) -> floor_intersect m r = None.
Proof.
  intros Ho Hd. unfold floor_intersect.
  destruct (Req_dec_T (z (direction r)) 0); [reflexivity |].
  destruct (Rlt_dec 0 (- z (origin r) / z (direction r))) as [Hlt |]; [| reflexivity].
  exfalso.
  assert (0 <= z (origin r) * / z (direction r)).
  { apply Rmult_le_pos; [lra |]. apply Rlt_le, Rinv_0_lt_compat. lra. }
  unfold Rdiv in Hlt. lra.
Qed.

(** A ray that starts further from the floor than its [t] reaches it not. *)
Lemma floor_intersect_far (m : Material) (r : Ray) :
  0 <= t r -> t r <= z (origin r) -> -1 <= z (direction r) ->
  floor_intersect m r = None.
Proof.
  intros Ht Ho Hd. unfold floor_intersect.
  destruct (Req_dec_T (z (direction r)) 0); [reflexivity |].
  destruct (Rlt_dec 0 (- z (origin r) / z (direction r))) as [Hpos |]; [| reflexivity].
  destruct (Rlt_dec (- z (origin r) / z (direction r)) (t r)) as [Hlt |]; [| reflexivity].
  exfalso.
  destruct (Rlt_dec (z (direction r)) 0) as [Hneg | Hnn].
  - assert (Hq : - z (origin r) / z (direction r) * (- z (direction r)) = z (origin r))
      by (field; lra).
    assert (- z (origin r) / z (direction r) * (- z (direction r))
            <= - z (origin r) / z (direction r) * 1)
      by (apply Rmult_le_compat_l; lra).
    lra.
  - assert (0 <= z (origin r) * / z (direction r)).
    { apply Rmult_le_pos; [lra |]. apply Rlt_le, Rinv_0_lt_compat. lra. }
    unfold Rdiv in Hpos. lra.
Qed.

(** The shadow ray towards the buried light starts just above the floor and
    points straight down: it is occluded by the floor. *)
Lemma buried_light_occluded (m : Material) :
  exists h,
    floor_intersect m (shadowRayBinary (position buried_light) camera_ray_hit) = Some h.
Proof.
  unfold shadowRayBinary, Ray_from.
  match goal with
  | |- context [normalize ?v] =>
      replace (normalize v) with (mkvec3 0 0 (-1))
        by (symmetry; apply normalize_z_down; simpl; lra)
  end.
  eexists. apply floor_intersect_hit; simpl; unfold FLT_MAX; lra.
Qed.

(** The attenuated shadow ray towards the lamp points straight up. *)
Lemma lamp_unoccluded (m : Material) :
  floor_intersect m (shadowRayTransparency lamp camera_ray_hit) = None.
Proof.
  unfold shadowRayTransparency, Ray_from.
  match goal with
  | |- context [normalize ?v] =>
      replace (normalize v) with (mkvec3 0 0 1)
        by (symmetry; apply normalize_z_up; simpl; lra)
  end.
  apply floor_intersect_away; simpl; lra.
Qed.

(** ** Visibility *)

(** C2: [visibilityOfLightSample] returns [lightColor] when shadows are
    disabled, whatever the BVH holds; with shadows enabled and transparency
    disabled, [lightColor] if the shadow ray hits nothing and the zero vector
    if it hits anything; with both enabled, [lightColor] if the shadow ray hits
    nothing and otherwise
    [lightColor * hitInfo.material.kd * (1 - hitInfo.material.transparency)],
    [hitInfo] being the receiving intersection, not what the shadow ray
    hit. *)
Theorem visibilityOfLightSample_modes (state : RenderState)
    (lightPosition lightColor : vec3) (ray : Ray) (hitInfo : HitInfo) :
  (enableShadows (features state) = false ->
     visibilityOfLightSample state lightPosition lightColor ray hitInfo = lightColor)
  /\ (enableShadows (features state) = true ->
      enableTransparency (features state) = false ->
      (bvh_intersect state (shadowRayBinary lightPosition ray) = None ->
         visibilityOfLightSample state lightPosition lightColor ray hitInfo = lightColor)
      /\ (forall h, bvh_intersect state (shadowRayBinary lightPosition ray) = Some h ->
            visibilityOfLightSample state lightPosition lightColor ray hitInfo = vzero))
  /\ (enableShadows (features state) = true ->
      enableTransparency (features state) = true ->
      (bvh_intersect state (shadowRayTransparency lightPosition ray) = None ->
         visibilityOfLightSample state lightPosition lightColor ray hitInfo = lightColor)
      /\ (forall h, bvh_intersect state (shadowRayTransparency lightPosition ray) = Some h ->
            visibilityOfLightSample state lightPosition lightColor ray hitInfo =
              (lightColor * kd (material hitInfo)
               *^ (1 - transparency (material hitInfo)))%vec)).
Proof.
  unfold visibilityOfLightSample, visibilityOfLightSampleBinary,
    visibilityOfLightSampleTransparency.
  split; [| split].
  - intros ->. reflexivity.
  - intros -> ->. simpl. split.
    + intros ->. reflexivity.
    + intros h ->. reflexivity.
  - intros -> ->. simpl. split.
    + intros ->. reflexivity.
    + intros h ->. reflexivity.
Qed.

Lemma visibilityOfLightSample_modes_witness :
  visibilityOfLightSample (floor_scene (floor_material vzero 0 1) [] (flat_features false false 0))
    (position buried_light) (vec3_of 1) camera_ray_hit (floor_hit (floor_material vzero 0 1))
  = vec3_of 1
  /\ visibilityOfLightSample (floor_scene (floor_material vzero 0 1) [] (flat_features true false 0))
       (position buried_light) (vec3_of 1) camera_ray_hit (floor_hit (floor_material vzero 0 1))
     = vzero
  /\ visibilityOfLightSample (floor_scene (floor_material vzero 0 1) [] (flat_features true true 0))
       lamp (vec3_of 1) camera_ray_hit (floor_hit (floor_material vzero 0 1))
     = vec3_of 1.
Proof.
  split; [| split].
  - apply (proj1 (visibilityOfLightSample_modes _ _ _ _ _)). reflexivity.
  - destruct (buried_light_occluded (floor_material vzero 0 1)) as [h Hh].
    apply (proj2 (proj1 (proj2 (visibilityOfLightSample_modes
             (floor_scene (floor_material vzero 0 1) [] (flat_features true false 0))
             _ _ _ _)) eq_refl eq_refl) h).
    exact Hh.
  - apply (proj1 (proj2 (proj2 (visibilityOfLightSample_modes
             (floor_scene (floor_material vzero 0 1) [] (flat_features true true 0))
             _ _ _ _)) eq_refl eq_refl)).
    apply lamp_unoccluded.
Defined.

(** ** Point lights *)

(** An occluded point light contributes nothing. *)
Lemma computeContributionPointLight_occluded (state : RenderState)
    (light : PointLight) (ray : Ray) (hitInfo : HitInfo) :
  visibilityOfLightSampleBinary state (position light) (color light) ray hitInfo = false ->
  computeContributionPointLight state light ray hitInfo = vzero.
Proof. unfold computeContributionPointLight. intros ->. reflexivity. Qed.

(** C3, as the code has it: [computeContributionPointLight] makes one binary
    shadow test; when it reports the light occluded the contribution is zero
    and nothing is shaded; when it reports the light visible there is one
    shading evaluation, and the contribution is
    [shading * (1 - transparency) + attenuatedVisibility] if the material's
    transparency is [< 1] and [shading] otherwise. *)
Theorem computeContributionPointLight_cases (state : RenderState)
    (light : PointLight) (ray : Ray) (hitInfo : HitInfo) :
  let intersectionPoint := (origin ray + direction ray *^ t ray +^ 0.0001)%vec in
  let lightDirection := normalize (position light - intersectionPoint)%vec in
  let shading :=
    computeShading state (- direction ray)%vec lightDirection (color light) hitInfo in
  let visible :=
    visibilityOfLightSampleBinary state (position light) (color light) ray hitInfo in
  (visible = false ->
     computeContributionPointLight state light ray hitInfo = vzero)
  /\ (visible = true -> transparency (material hitInfo) < 1 ->
      computeContributionPointLight state light ray hitInfo
        = pointLightNetFormula state light ray hitInfo)
  /\ (visible = true -> 1 <= transparency (material hitInfo) ->
      computeContributionPointLight state light ray hitInfo = shading).
Proof.
  intros intersectionPoint lightDirection shading visible.
  subst shading lightDirection intersectionPoint visible.
  split; [apply computeContributionPointLight_occluded |].
  unfold computeContributionPointLight, pointLightNetFormula.
  split.
  - intros -> Htr.
    destruct (Rlt_dec (transparency (material hitInfo)) 1); [reflexivity | lra].
  - intros -> Htr.
    destruct (Rlt_dec (transparency (material hitInfo)) 1); [lra | reflexivity].
Qed.

(** The attenuated visibility keeps at least the share
    [kd * (1 - transparency)] of a white light. *)
Lemma visibilityOfLightSampleTransparency_white (state : RenderState)
    (lightPosition : vec3) (ray : Ray) (m : Material) :
  kd m = vec3_of 1 -> transparency m = 0.5 ->
  0.5 <= x (visibilityOfLightSampleTransparency state lightPosition (vec3_of 1) ray
              (floor_hit m)).
Proof.
  intros Hkd Htr. unfold visibilityOfLightSampleTransparency.
  destruct (bvh_intersect state _).
  - simpl material. rewrite Hkd, Htr. simpl. lra.
  - simpl. lra.
Qed.

(** C3 fails when the light is occluded: with the light buried under a
    half-transparent floor the contribution is zero, not the net formula. *)
Lemma computeContributionPointLight_occluded_counterexample :
  transparency (material (floor_hit (floor_material vzero 0 0.5))) < 1
  /\ computeContributionPointLight
       (floor_scene (floor_material vzero 0 0.5) [LPoint buried_light]
          (flat_features true true 0))
       buried_light camera_ray_hit (floor_hit (floor_material vzero 0 0.5))
     <> pointLightNetFormula
          (floor_scene (floor_material vzero 0 0.5) [LPoint buried_light]
             (flat_features true true 0))
          buried_light camera_ray_hit (floor_hit (floor_material vzero 0 0.5)).
Proof.
  split; [simpl; lra |].
  set (m := floor_material vzero 0 0.5).
  set (state := floor_scene m [LPoint buried_light] (flat_features true true 0)).
  assert (Hocc : visibilityOfLightSampleBinary state (position buried_light)
                   (color buried_light) camera_ray_hit (floor_hit m) = false).
  { unfold visibilityOfLightSampleBinary.
    destruct (buried_light_occluded m) as [h Hh].
    change (bvh_intersect state) with (floor_intersect m). rewrite Hh. reflexivity. }
  rewrite (computeContributionPointLight_occluded state buried_light
             camera_ray_hit (floor_hit m) Hocc).
  intros E. apply (f_equal x) in E. revert E.
  unfold pointLightNetFormula.
  match goal with
  | |- context [visibilityOfLightSampleTransparency ?s ?p ?c ?r ?h] =>
      assert (Ha : 0.5 <= x (visibilityOfLightSampleTransparency s p c r h))
        by (apply (visibilityOfLightSampleTransparency_white s p r m); reflexivity);
      set (a := visibilityOfLightSampleTransparency s p c r h) in *; clearbody a
  end.
  vec_unfold. unfold computeShading. simpl. lra.
Qed.

Lemma computeContributionPointLight_cases_witness :
  computeContributionPointLight
    (floor_scene (floor_material vzero 0 0.5) [LPoint buried_light]
       (flat_features true true 0))
    buried_light camera_ray_hit (floor_hit (floor_material vzero 0 0.5))
  = vzero.
Proof.
  apply (proj1 (computeContributionPointLight_cases _ _ _ _)).
  unfold visibilityOfLightSampleBinary.
  destruct (buried_light_occluded (floor_material vzero 0 0.5)) as [h Hh].
  change (bvh_intersect (floor_scene (floor_material vzero 0 0.5)
                           [LPoint buried_light] (flat_features true true 0)))
    with (floor_intersect (floor_material vzero 0 0.5)).
  rewrite Hh. reflexivity.
Defined.

(** C10: [visibilityOfLightSampleBinary] does not consult the feature flags,
    and [computeContributionPointLight] always goes through it: whenever the
    shadow ray towards a point light hits anything, the contribution of that
    light is the zero vector, whatever the flags say, shadows disabled
    included. *)
Theorem computeContributionPointLight_ignores_flags (state : RenderState)
    (light : PointLight) (ray : Ray) (hitInfo : HitInfo) :
  (forall (f : Features) (lightPosition lightColor : vec3),
     visibilityOfLightSampleBinary (set_features state f) lightPosition lightColor
       ray hitInfo
     = visibilityOfLightSampleBinary state lightPosition lightColor ray hitInfo)
  /\ (forall (f : Features) (h : R * HitInfo),
        bvh_intersect state (shadowRayBinary (position light) ray) = Some h ->
        computeContributionPointLight (set_features state f) light ray hitInfo = vzero).
Proof.
  split.
  - intros f lightPosition lightColor. reflexivity.
  - intros f h Hh.
    apply computeContributionPointLight_occluded.
    unfold visibilityOfLightSampleBinary. simpl bvh_intersect.
    rewrite Hh. reflexivity.
Qed.

Lemma computeContributionPointLight_ignores_flags_witness :
  enableShadows (flat_features false false 0) = false
  /\ computeContributionPointLight
       (set_features (floor_scene (floor_material vzero 0 1) [LPoint buried_light]
                        (flat_features true false 0))
          (flat_features false false 0))
       buried_light camera_ray_hit (floor_hit (floor_material vzero 0 1))
     = vzero.
Proof.
  split; [reflexivity |].
  destruct (buried_light_occluded (floor_material vzero 0 1)) as [h Hh].
  apply (proj2 (computeContributionPointLight_ignores_flags
                  (floor_scene (floor_material vzero 0 1) [LPoint buried_light]
                     (flat_features true false 0))
                  buried_light camera_ray_hit (floor_hit (floor_material vzero 0 1)))
           (flat_features false false 0) h).
  exact Hh.
Defined.

(** ** Area lights *)

Lemma vadd_zero_r (a : vec3) : (a + vzero)%vec = a.
Proof. vec_eq. Qed.

Lemma vadd_assoc (a b c : vec3) : (a + b + c)%vec = (a + (b + c))%vec.
Proof. vec_eq. Qed.

Lemma vadd_zero_l (a : vec3) : (vzero + a)%vec = a.
Proof. vec_eq. Qed.

Lemma vsum_shift (f : nat -> vec3) (n : nat) :
  vsum f (S n) = (f 0%nat + vsum (fun i => f (S i)) n)%vec.
Proof.
  induction n as [| n IH].
  - simpl. vec_eq.
  - change (vsum f (S (S n))) with (vsum f (S n) + f (S n))%vec.
    rewrite IH. simpl. apply vadd_assoc.
Qed.

Lemma vsum_ext (f g : nat -> vec3) (n : nat) :
  (forall i, (i < n)%nat -> f i = g i) -> vsum f n = vsum g n.
Proof.
  induction n as [| n IH]; intros H; [reflexivity |].
  simpl. rewrite IH by (intros; apply H; lia). rewrite H by lia. reflexivity.
Qed.

(** The sampling loop draws once per iteration: iteration [i] uses the draw
    at [cursor + i]. *)
Lemma segmentLoop_sum (state : RenderState) (light : SegmentLight) (ray : Ray)
    (hitInfo : HitInfo) :
  forall (n : nat) (acc : vec3) (s : Sampler),
    segmentLoop state light ray hitInfo n acc s =
      ((acc + vsum (fun i => segmentSample state light ray hitInfo
                               (draws s (cursor s + i))) n)%vec,
       mkSampler (draws s) (cursor s + n)).
Proof.
  induction n as [| n IH]; intros acc s.
  - simpl. rewrite vadd_zero_r, Nat.add_0_r. destruct s; reflexivity.
  - cbn [segmentLoop next_1d]. rewrite IH. cbn [draws cursor].
    rewrite vsum_shift, Nat.add_0_r, vadd_assoc.
    f_equal; [| f_equal; lia].
    f_equal. f_equal. apply vsum_ext. intros i _. do 2 f_equal. lia.
Qed.

(** Each iteration takes two consecutive draws for its 2D sample. *)
Lemma parallelogramLoop_sum (state : RenderState) (light : ParallelogramLight)
    (ray : Ray) (hitInfo : HitInfo) :
  forall (n : nat) (acc : vec3) (s : Sampler),
    parallelogramLoop state light ray hitInfo n acc s =
      ((acc + vsum (fun i => parallelogramSample state light ray hitInfo
                               (mkvec2 (draws s (cursor s + 2 * i))
                                       (draws s (cursor s + 2 * i + 1)))) n)%vec,
       mkSampler (draws s) (cursor s + 2 * n)).
Proof.
  induction n as [| n IH]; intros acc s.
  - simpl. rewrite vadd_zero_r, Nat.add_0_r. destruct s; reflexivity.
  - cbn [parallelogramLoop next_2d]. rewrite IH. cbn [draws cursor].
    rewrite vsum_shift, vadd_assoc.
    f_equal; [| f_equal; lia].
    f_equal. f_equal.
    + do 2 f_equal; f_equal; lia.
    + apply vsum_ext. intros i _. do 2 f_equal; f_equal; lia.
Qed.

(** C9: the contribution of a segment or parallelogram light is the sum of
    [numSamples] per-sample contributions, each from its own draw of the
    sampler (the [i]-th from the draw at [cursor + i], for a parallelogram the
    two draws at [cursor + 2 i]), divided by [numSamples]; with
    [numSamples = 0] it is the zero vector and the sampler is left as it
    was. *)
Theorem areaLight_contribution (state : RenderState) (ray : Ray)
    (hitInfo : HitInfo) (s : Sampler) :
  (forall light,
     computeContributionSegmentLight state light ray hitInfo 0 s = (vzero, s))
  /\ (forall light,
        computeContributionParallelogramLight state light ray hitInfo 0 s = (vzero, s))
  /\ (forall light n, (0 < n)%nat ->
        computeContributionSegmentLight state light ray hitInfo n s =
          (vsum (fun i => segmentSample state light ray hitInfo
                            (draws s (cursor s + i))) n /^ INR n,
           mkSampler (draws s) (cursor s + n)))
  /\ (forall light n, (0 < n)%nat ->
        computeContributionParallelogramLight state light ray hitInfo n s =
          (vsum (fun i => parallelogramSample state light ray hitInfo
                            (mkvec2 (draws s (cursor s + 2 * i))
                                    (draws s (cursor s + 2 * i + 1)))) n /^ INR n,
           mkSampler (draws s) (cursor s + 2 * n))).
Proof.
  repeat split.
  - intros light n Hn. unfold computeContributionSegmentLight.
    rewrite segmentLoop_sum, vadd_zero_l.
    destruct (Nat.ltb_spec 0 n); [reflexivity | lia].
  - intros light n Hn. unfold computeContributionParallelogramLight.
    rewrite parallelogramLoop_sum, vadd_zero_l.
    destruct (Nat.ltb_spec 0 n); [reflexivity | lia].
Qed.

Lemma areaLight_contribution_witness :
  computeContributionSegmentLight pole_scene pole_light camera_ray_hit
    (floor_hit (floor_material vzero 0 1)) 2 step_sampler
  = (vsum (fun i => segmentSample pole_scene pole_light camera_ray_hit
                      (floor_hit (floor_material vzero 0 1))
                      (draws step_sampler (cursor step_sampler + i))) 2 /^ INR 2,
     mkSampler (draws step_sampler) (cursor step_sampler + 2))
  /\ computeContributionParallelogramLight pole_scene panel_light camera_ray_hit
       (floor_hit (floor_material vzero 0 1)) 0 step_sampler
     = (vzero, step_sampler).
Proof.
  split.
  - apply (proj1 (proj2 (proj2 (areaLight_contribution pole_scene camera_ray_hit
                                  (floor_hit (floor_material vzero 0 1)) step_sampler)))
             pole_light 2%nat).
    lia.
  - apply (proj1 (proj2 (areaLight_contribution pole_scene camera_ray_hit
                           (floor_hit (floor_material vzero 0 1)) step_sampler))).
Defined.

(** ** The recursion of [renderRay] *)

Lemma bind_ext (m m' : Render) (k k' : vec3 -> Render) (s : Sampler) :
  m s = m' s -> (forall c s', k c s' = k' c s') -> bind m k s = bind m' k' s.
Proof.
  intros Hm Hk. unfold bind. rewrite Hm.
  destruct (m' s) as [[c s'] |]; [apply Hk | reflexivity].
Qed.

Lemma bind_some (m : Render) (k : vec3 -> Render) (s : Sampler) :
  m s <> None -> (forall c s', k c s' <> None) -> bind m k s <> None.
Proof.
  intros Hm Hk. unfold bind.
  destruct (m s) as [[c s'] |]; [apply Hk | contradiction].
Qed.

Lemma ret_some (c : vec3) (s : Sampler) : ret c s <> None.
Proof. discriminate. Qed.

(** The components reach [renderRay] at [rayDepth + 1] only. *)
Lemma renderRaySpecularComponent_ext (rec rec' : RenderFn) (state : RenderState)
    (ray : Ray) (hitInfo : HitInfo) (hitColor : vec3) (rayDepth : Z) (s : Sampler) :
  (forall r s', rec r (rayDepth + 1)%Z s' = rec' r (rayDepth + 1)%Z s') ->
  renderRaySpecularComponent rec state ray hitInfo hitColor rayDepth s
  = renderRaySpecularComponent rec' state ray hitInfo hitColor rayDepth s.
Proof.
  intros H. unfold renderRaySpecularComponent.
  destruct (enableReflections (features state)); [| reflexivity].
  destruct (vec3_eq_dec _ vzero); [reflexivity |].
  apply bind_ext; [apply H | reflexivity].
Qed.

Lemma renderRayTransparentComponent_ext (rec rec' : RenderFn) (state : RenderState)
    (ray : Ray) (hitInfo : HitInfo) (hitColor : vec3) (rayDepth : Z) (s : Sampler) :
  (forall r s', rec r (rayDepth + 1)%Z s' = rec' r (rayDepth + 1)%Z s') ->
  renderRayTransparentComponent rec state ray hitInfo hitColor rayDepth s
  = renderRayTransparentComponent rec' state ray hitInfo hitColor rayDepth s.
Proof.
  intros H. unfold renderRayTransparentComponent.
  destruct (enableTransparency (features state)); [| reflexivity].
  destruct (vec3_eq_dec _ vzero); [reflexivity |].
  apply bind_ext; [apply H | reflexivity].
Qed.

Lemma renderRay_body_ext (g : GlossyComponent) (rec rec' : RenderFn)
    (state : RenderState) (ray : Ray) (rayDepth : Z) (s : Sampler) :
  (forall r s', rec r (rayDepth + 1)%Z s' = rec' r (rayDepth + 1)%Z s') ->
  renderRay_body g rec state ray rayDepth s = renderRay_body g rec' state ray rayDepth s.
Proof.
  intros H. unfold renderRay_body.
  destruct (bvh_intersect state ray) as [[t_hit hitInfo] |]; [| reflexivity].
  apply bind_ext; [reflexivity |]. intros Lo s1.
  destruct (rayDepth <? 6)%Z; [| reflexivity].
  apply bind_ext.
  { destruct (_ && _ && _); [| reflexivity].
    apply renderRaySpecularComponent_ext, H. }
  intros Lo1 s2. apply bind_ext.
  { destruct (_ && _ && _); [| reflexivity].
    replace (fun r => rec r (rayDepth + 1)%Z) with (fun r => rec' r (rayDepth + 1)%Z);
      [reflexivity |].
    extensionality r. extensionality s'. symmetry. apply H. }
  intros Lo2 s3.
  destruct (_ && _); [| reflexivity].
  apply renderRayTransparentComponent_ext, H.
Qed.

(** At depth 6 and beyond the body makes no recursive call. *)
Lemma renderRay_body_leaf (g : GlossyComponent) (rec rec' : RenderFn)
    (state : RenderState) (ray : Ray) (rayDepth : Z) (s : Sampler) :
  (6 <= rayDepth)%Z ->
  renderRay_body g rec state ray rayDepth s = renderRay_body g rec' state ray rayDepth s.
Proof.
  intros Hd. unfold renderRay_body.
  destruct (bvh_intersect state ray) as [[t_hit hitInfo] |]; [| reflexivity].
  destruct (Z.ltb_spec rayDepth 6); [lia | reflexivity].
Qed.

Lemma renderRay_body_some (g : GlossyComponent) (rec : RenderFn)
    (state : RenderState) (ray : Ray) (rayDepth : Z) (s : Sampler) :
  glossy_returns g ->
  ((rayDepth < 6)%Z -> forall r s', rec r (rayDepth + 1)%Z s' <> None) ->
  renderRay_body g rec state ray rayDepth s <> None.
Proof.
  intros Hg Hrec. unfold renderRay_body.
  destruct (bvh_intersect state ray) as [[t_hit hitInfo] |]; [| apply ret_some].
  apply bind_some; [discriminate |]. intros Lo s1.
  destruct (Z.ltb_spec rayDepth 6) as [Hlt |]; [| apply ret_some].
  specialize (Hrec Hlt).
  apply bind_some.
  { destruct (_ && _ && _); [| apply ret_some].
    unfold renderRaySpecularComponent.
    destruct (enableReflections (features state)); [| apply ret_some].
    destruct (vec3_eq_dec _ vzero); [apply ret_some |].
    apply bind_some; [apply Hrec | intros; apply ret_some]. }
  intros Lo1 s2. apply bind_some.
  { destruct (_ && _ && _); [| apply ret_some].
    apply Hg. exact Hrec. }
  intros Lo2 s3.
  destruct (_ && _); [| apply ret_some].
  unfold renderRayTransparentComponent.
  destruct (enableTransparency (features state)); [| apply ret_some].
  destruct (vec3_eq_dec _ vzero); [apply ret_some |].
  apply bind_some; [apply Hrec | intros; apply ret_some].
Qed.

Lemma depth_budget (d : Z) :
  (d < 6)%Z -> Z.to_nat (6 - d) = S (Z.to_nat (6 - (d + 1))).
Proof. intros. lia. Qed.

(** A budget of more than [6 - rayDepth] nested calls is never exhausted. *)
Lemma renderRay_fuel_some (g : GlossyComponent) (state : RenderState) :
  glossy_returns g ->
  forall (fuel : nat) (ray : Ray) (rayDepth : Z) (s : Sampler),
    (Z.to_nat (6 - rayDepth) < fuel)%nat ->
    renderRay_fuel g fuel state ray rayDepth s <> None.
Proof.
  intros Hg. induction fuel as [| n IH]; intros ray d s Hf; [lia |].
  simpl. apply renderRay_body_some; [exact Hg |].
  intros Hlt r s'. apply IH. rewrite (depth_budget d Hlt) in Hf. lia.
Qed.

(** Nor does the result depend on how much more than that is given. *)
Lemma renderRay_fuel_stable (g : GlossyComponent) (state : RenderState) :
  forall (n m : nat) (ray : Ray) (rayDepth : Z) (s : Sampler),
    (Z.to_nat (6 - rayDepth) < n)%nat -> (Z.to_nat (6 - rayDepth) < m)%nat ->
    renderRay_fuel g n state ray rayDepth s = renderRay_fuel g m state ray rayDepth s.
Proof.
  induction n as [| n IH]; intros m ray d s Hn Hm; [lia |].
  destruct m as [| m]; [lia |]. simpl.
  destruct (Z.ltb_spec d 6) as [Hlt | Hge].
  - apply renderRay_body_ext. intros r s'.
    rewrite (depth_budget d Hlt) in Hn, Hm. apply IH; lia.
  - apply renderRay_body_leaf. exact Hge.
Qed.

(** [renderRay] satisfies the recursive equation of the source. *)
Lemma renderRay_unfold (g : GlossyComponent) (state : RenderState) (ray : Ray)
    (rayDepth : Z) (s : Sampler) :
  renderRay g state ray rayDepth s
  = renderRay_body g (renderRay g state) state ray rayDepth s.
Proof.
  unfold renderRay at 1. cbn [renderRay_fuel].
  destruct (Z.ltb_spec rayDepth 6) as [Hlt | Hge].
  - apply renderRay_body_ext. intros r s'. unfold renderRay.
    rewrite (depth_budget rayDepth Hlt). reflexivity.
  - apply renderRay_body_leaf. exact Hge.
Qed.

(** The bound is reached: over the glass floor every passthrough ray hits the
    floor again, and a budget of [6 - rayDepth] nested calls, one short, is
    exhausted. *)
Lemma renderRay_depth_reached (g : GlossyComponent) :
  forall (n : nat) (r : Ray) (rayDepth : Z) (s : Sampler),
    (rayDepth + Z.of_nat n <= 6)%Z -> looks_down r ->
    renderRay_fuel g n glass_scene r rayDepth s = None.
Proof.
  induction n as [| n IH]; intros r d s Hd (Hdir & Hpos & Hreach); [reflexivity |].
  assert (Hnext : looks_down
            (generatePassthroughRay
               (mkRay (origin r) (direction r) (- z (origin r) / z (direction r)))
               (floor_hit (floor_material vzero 0 0.5)))).
  { unfold looks_down, generatePassthroughRay. cbn [direction origin t].
    split; [exact Hdir |]. rewrite Hdir. vec_unfold.
    replace (z (origin r) + -1 * (- z (origin r) / -1) + 0.001) with 0.001 by field.
    lra. }
  assert (Htr : isTransparent (floor_hit (floor_material vzero 0 0.5)) = true).
  { unfold isTransparent. simpl. destruct (Req_dec_T 0.5 1); [lra | reflexivity]. }
  cbn [renderRay_fuel]. unfold renderRay_body.
  change (bvh_intersect glass_scene r)
    with (floor_intersect (floor_material vzero 0 0.5) r).
  rewrite floor_intersect_hit by (rewrite ?Hdir; simpl; lra).
  destruct (Z.ltb_spec d 6) as [_ | Hge]; [| lia].
  rewrite Htr.
  change (enableReflections (features glass_scene)) with false.
  change (enableTransparency (features glass_scene)) with true.
  cbn [andb]. unfold renderRayTransparentComponent.
  change (enableTransparency (features glass_scene)) with true.
  destruct (vec3_eq_dec _ vzero) as [E | _].
  { exfalso. destruct Hnext as [Hn _]. rewrite Hn in E.
    apply (f_equal z) in E. simpl in E. lra. }
  unfold bind, ret.
  destruct (computeLightContribution glass_scene _ _ s) as [Lo s1].
  rewrite IH; [reflexivity | lia | exact Hnext].
Qed.

(** C1: every call of [renderRay] returns, whatever the scene: it satisfies
    the recursive equation of the source; a call with [rayDepth >= 6] makes no
    recursive call (its result does not depend on what a recursive call would
    return); a call with [rayDepth < 6] reaches [renderRay] at [rayDepth + 1]
    only; and a nest of more than [6 - rayDepth] calls is never needed, so no
    call is made at a depth beyond 6. *)
Theorem renderRay_terminates (g : GlossyComponent) (state : RenderState)
    (ray : Ray) (rayDepth : Z) (s : Sampler) :
  glossy_returns g ->
  (exists c s', renderRay g state ray rayDepth s = Some (c, s'))
  /\ renderRay g state ray rayDepth s
     = renderRay_body g (renderRay g state) state ray rayDepth s
  /\ ((6 <= rayDepth)%Z ->
      forall rec : RenderFn,
        renderRay_body g rec state ray rayDepth s = renderRay g state ray rayDepth s)
  /\ (forall rec rec' : RenderFn,
        (forall r s', rec r (rayDepth + 1)%Z s' = rec' r (rayDepth + 1)%Z s') ->
        renderRay_body g rec state ray rayDepth s
        = renderRay_body g rec' state ray rayDepth s)
  /\ (forall fuel : nat,
        (Z.to_nat (6 - rayDepth) < fuel)%nat ->
        renderRay_fuel g fuel state ray rayDepth s = renderRay g state ray rayDepth s).
Proof.
  intros Hg. split; [| split; [| split; [| split]]].
  - pose proof (renderRay_fuel_some g state Hg (S (Z.to_nat (6 - rayDepth))) ray
                  rayDepth s (Nat.lt_succ_diag_r _)) as Hsome.
    unfold renderRay.
    destruct (renderRay_fuel g _ state ray rayDepth s) as [[c s'] |];
      [exists c, s'; reflexivity | contradiction].
  - apply renderRay_unfold.
  - intros Hd rec. rewrite renderRay_unfold. apply renderRay_body_leaf. exact Hd.
  - intros rec rec'. apply renderRay_body_ext.
  - intros fuel Hf. unfold renderRay. apply renderRay_fuel_stable; lia.
Qed.

Lemma glossy_two_returns : glossy_returns glossy_two.
Proof.
  intros state rec ray hitInfo hitColor rayDepth s Hrec. unfold glossy_two.
  apply bind_some; [apply Hrec |]. intros a s1.
  apply bind_some; [apply Hrec |]. intros b s2. apply ret_some.
Qed.

Lemma renderRay_terminates_witness :
  exists c s', renderRay glossy_two (mirror_scene true) camera_ray 0 step_sampler
               = Some (c, s').
Proof.
  apply (renderRay_terminates glossy_two (mirror_scene true) camera_ray 0 step_sampler).
  exact glossy_two_returns.
Defined.

(** ** Batches of rays *)

Lemma renderRaysLoop_each (g : GlossyComponent) (state : RenderState) (rayDepth : Z) :
  forall (rays : list Ray) (L : vec3) (s : Sampler),
    renderRaysLoop g state rays rayDepth L s =
      match renderEach g state rays rayDepth s with
      | Some (cs, s') => Some (fold_left vadd cs L, s')
      | None => None
      end.
Proof.
  induction rays as [| ray rest IH]; intros L s; [reflexivity |].
  cbn [renderRaysLoop renderEach]. unfold bind at 1.
  destruct (renderRay g state ray rayDepth s) as [[c s1] |]; [| reflexivity].
  rewrite IH.
  destruct (renderEach g state rest rayDepth s1) as [[cs s2] |]; reflexivity.
Qed.

Lemma renderEach_length (g : GlossyComponent) (state : RenderState) (rayDepth : Z) :
  forall (rays : list Ray) (s : Sampler) cs s',
    renderEach g state rays rayDepth s = Some (cs, s') -> length cs = length rays.
Proof.
  induction rays as [| ray rest IH]; intros s cs s' H; simpl in H.
  - injection H as <- _. reflexivity.
  - destruct (renderRay g state ray rayDepth s) as [[c s1] |]; [| discriminate].
    destruct (renderEach g state rest rayDepth s1) as [[cs1 s2] |] eqn:E;
      [| discriminate].
    injection H as <- _. simpl. f_equal. eapply IH. exact E.
Qed.

Lemma renderEach_repeat (g : GlossyComponent) (state : RenderState) (ray : Ray)
    (rayDepth : Z) (c : vec3) :
  (forall s0, exists s1, renderRay g state ray rayDepth s0 = Some (c, s1)) ->
  forall (N : nat) (s : Sampler),
    exists s', renderEach g state (repeat ray N) rayDepth s = Some (repeat c N, s').
Proof.
  intros H. induction N as [| N IH]; intros s.
  - exists s. reflexivity.
  - destruct (H s) as [s1 H1]. destruct (IH s1) as [s2 H2].
    exists s2. simpl. rewrite H1, H2. reflexivity.
Qed.

Lemma fold_left_vadd_repeat (c : vec3) :
  forall (N : nat) (L : vec3),
    fold_left vadd (repeat c N) L = (L + c *^ INR N)%vec.
Proof.
  induction N as [| N IH]; intros L.
  - simpl. vec_eq.
  - change (repeat c (S N)) with (c :: repeat c N).
    cbn [fold_left]. rewrite IH, S_INR. vec_eq.
Qed.

Lemma vmean_repeat (c : vec3) (N : nat) : (1 <= N)%nat -> vmean (repeat c N) = c.
Proof.
  intros HN. unfold vmean. rewrite fold_left_vadd_repeat, repeat_length.
  assert (INR N <> 0) by (apply not_0_INR; lia).
  vec_eq; field; assumption.
Qed.

(** C8, as the code has it: [renderRays] returns the arithmetic mean of the
    colours that [renderRay] returns for the rays of the batch, each call
    starting from the sampler state the previous one left; on [N >= 1]
    identical rays it returns the colour of a single [renderRay] call whenever
    [renderRay] returns that colour for the ray from every sampler state. *)
Theorem renderRays_mean (g : GlossyComponent) (state : RenderState)
    (rayDepth : Z) (s : Sampler) :
  (forall rays,
     renderRays g state rays rayDepth s =
       match renderEach g state rays rayDepth s with
       | Some (cs, s') => Some (vmean cs, s')
       | None => None
       end)
  /\ (forall ray c N,
        (1 <= N)%nat ->
        (forall s0, exists s1, renderRay g state ray rayDepth s0 = Some (c, s1)) ->
        exists s', renderRays g state (repeat ray N) rayDepth s = Some (c, s')).
Proof.
  assert (Hmean : forall rays,
     renderRays g state rays rayDepth s =
       match renderEach g state rays rayDepth s with
       | Some (cs, s') => Some (vmean cs, s')
       | None => None
       end).
  { intros rays. unfold renderRays, bind. rewrite renderRaysLoop_each.
    destruct (renderEach g state rays rayDepth s) as [[cs s'] |] eqn:E;
      [| reflexivity].
    unfold ret, vmean. rewrite (renderEach_length g state rayDepth rays s cs s' E).
    reflexivity. }
  split; [exact Hmean |].
  intros ray c N HN Hc.
  destruct (renderEach_repeat g state ray rayDepth c Hc N s) as [s' E].
  exists s'. rewrite Hmean, E, vmean_repeat by exact HN. reflexivity.
Qed.

(** *** The pole scene: a colour that depends on the draw *)

(** A sample at height [2 + u] on the pole is visible from the floor under
    it, with the colour [u] of the pole at that height: the shadow ray that
    [visibilityOfLightSampleBinary] builds from the ray it is given starts
    [FLT_MAX] beyond the floor and cannot reach it. *)
Lemma pole_sample (u : R) :
  -2 < u ->
  segmentSample pole_scene pole_light camera_ray_hit
    (floor_hit (floor_material vzero 0 1)) u = vec3_of u.
Proof.
  intros Hu. unfold segmentSample, sampleSegmentLight.
  match goal with
  | |- context [normalize ?v] =>
      replace (normalize v) with (mkvec3 0 0 1)
        by (symmetry; apply normalize_z_up; simpl; lra)
  end.
  unfold visibilityOfLightSampleBinary.
  change (bvh_intersect pole_scene) with (floor_intersect (floor_material vzero 0 1)).
  rewrite floor_intersect_far.
  - unfold computeShading, sampleMaterialKd. simpl. vec_eq.
  - simpl. unfold FLT_MAX. lra.
  - simpl. unfold FLT_MAX. lra.
  - unfold shadowRayBinary, Ray_from. cbn [direction]. apply normalize_z_lower.
Qed.

Lemma pole_contribution (s : Sampler) :
  -2 < draws s (cursor s) ->
  computeLightContribution pole_scene camera_ray_hit
    (floor_hit (floor_material vzero 0 1)) s
  = (vec3_of (draws s (cursor s)), mkSampler (draws s) (S (cursor s))).
Proof.
  intros Hu. unfold computeLightContribution.
  change (lights pole_scene) with [LSegment pole_light].
  cbn [lightsLoop lightContribution].
  change (numShadowSamples (features pole_scene)) with 1%nat.
  unfold computeContributionSegmentLight.
  rewrite segmentLoop_sum. cbn [vsum Nat.ltb Nat.leb].
  rewrite Nat.add_0_r, pole_sample by exact Hu.
  f_equal; [| f_equal; lia]. vec_eq; simpl; field.
Qed.

Lemma pole_render (s : Sampler) :
  -2 < draws s (cursor s) ->
  renderRay glossy_off pole_scene camera_ray 0 s
  = Some (vec3_of (draws s (cursor s)), mkSampler (draws s) (S (cursor s))).
Proof.
  intros Hu. rewrite renderRay_unfold. unfold renderRay_body.
  change (bvh_intersect pole_scene camera_ray)
    with (floor_intersect (floor_material vzero 0 1) camera_ray).
  rewrite floor_intersect_hit by (simpl; unfold FLT_MAX; lra).
  replace (- z (origin camera_ray) / z (direction camera_ray)) with 1
    by (simpl; field).
  change (mkRay (origin camera_ray) (direction camera_ray) 1) with camera_ray_hit.
  unfold bind at 1. rewrite pole_contribution by exact Hu.
  reflexivity.
Qed.

(** C8 fails when the colour depends on the draw: the first draw of the
    sampler is [0], the dark end of the pole, the second [1/2]; a single
    [renderRay] returns black, the batch of two returns their mean. *)
Lemma renderRays_identical_counterexample :
  option_map fst (renderRay glossy_off pole_scene camera_ray 0 step_sampler)
    = Some vzero
  /\ option_map fst
       (renderRays glossy_off pole_scene [camera_ray; camera_ray] 0 step_sampler)
     = Some (vec3_of 0.25)
  /\ option_map fst
       (renderRays glossy_off pole_scene (repeat camera_ray 2) 0 step_sampler)
     <> option_map fst (renderRay glossy_off pole_scene camera_ray 0 step_sampler).
Proof.
  assert (H1 : renderRay glossy_off pole_scene camera_ray 0 step_sampler
               = Some (vzero, mkSampler (draws step_sampler) 1))
    by (rewrite pole_render by (simpl; lra); reflexivity).
  assert (H2 : renderRay glossy_off pole_scene camera_ray 0
                 (mkSampler (draws step_sampler) 1)
               = Some (vec3_of 0.5, mkSampler (draws step_sampler) 2))
    by (rewrite pole_render by (simpl; lra); reflexivity).
  assert (H3 : renderRays glossy_off pole_scene [camera_ray; camera_ray] 0 step_sampler
               = Some (vec3_of 0.25, mkSampler (draws step_sampler) 2)).
  { unfold renderRays, renderRaysLoop, bind. rewrite H1, H2. unfold ret.
    f_equal. f_equal. vec_eq; simpl; lra. }
  split; [rewrite H1; reflexivity |].
  split; [rewrite H3; reflexivity |].
  change (repeat camera_ray 2) with [camera_ray; camera_ray].
  rewrite H1, H3. simpl. intros E. injection E as E _ _. lra.
Qed.

Lemma sky_render (g : GlossyComponent) (s : Sampler) :
  renderRay g unlit_scene sky_ray 0 s = Some (vec3_of 0.5, s).
Proof.
  rewrite renderRay_unfold. unfold renderRay_body.
  change (bvh_intersect unlit_scene sky_ray)
    with (floor_intersect (floor_material vzero 0 1) sky_ray).
  rewrite floor_intersect_away by (simpl; lra). reflexivity.
Qed.

Lemma renderRays_mean_witness :
  exists s',
    renderRays glossy_off unlit_scene (repeat sky_ray 3) 0 step_sampler
    = Some (vec3_of 0.5, s').
Proof.
  apply (proj2 (renderRays_mean glossy_off unlit_scene 0 step_sampler)
           sky_ray (vec3_of 0.5) 3%nat).
  - lia.
  - intros s0. exists s0. apply sky_render.
Defined.

(** * Further properties of the code *)

(** ** Light sampling *)

(** [sampleSegmentLight] interpolates position and colour alike: both are
    [mix] of the two ends at the sample, so the sample [0] is the first end
    and the sample [1] the second. *)
Theorem sampleSegmentLight_lerp (light : SegmentLight) (sample : R) :
  sampleSegmentLight sample light =
    (mix (endpoint0 light) (endpoint1 light) sample,
     mix (seg_color0 light) (seg_color1 light) sample)
  /\ sampleSegmentLight 0 light = (endpoint0 light, seg_color0 light)
  /\ sampleSegmentLight 1 light = (endpoint1 light, seg_color1 light).
Proof.
  unfold sampleSegmentLight. repeat split; f_equal; vec_eq.
Qed.

(** The interpolation weights of both area lights add up to one: a light
    whose corners all have the colour [c] has the colour [c] at every
    sample. *)
Theorem areaLight_uniform_colour (c : vec3) :
  (forall light sample,
     seg_color0 light = c -> seg_color1 light = c ->
     snd (sampleSegmentLight sample light) = c)
  /\ (forall light sample,
        color0 light = c -> color1 light = c -> color2 light = c -> color3 light = c ->
        snd (sampleParallelogramLight sample light) = c).
Proof.
  split.
  - intros light sample H0 H1. unfold sampleSegmentLight. cbn [snd].
    rewrite H0, H1. vec_eq.
  - intros light sample H0 H1 H2 H3. unfold sampleParallelogramLight. cbn [snd].
    rewrite H0, H1, H2, H3. vec_eq.
Qed.

Lemma areaLight_uniform_colour_witness :
  snd (sampleSegmentLight 0.3 white_pole) = vec3_of 1.
Proof.
  apply (proj1 (areaLight_uniform_colour (vec3_of 1)) white_pole 0.3); reflexivity.
Defined.

(** ** Shading *)

(** With the light behind the surface ([dot(N, L) <= 0]) the Lambertian model
    returns black, and the Phong model keeps only its specular term, which
    has no such guard. *)
Theorem shading_light_behind (state : RenderState)
    (cameraDirection lightDirection lightColor : vec3) (hitInfo : HitInfo) :
  let N := normalize (normal hitInfo) in
  let L := normalize lightDirection in
  let V := normalize cameraDirection in
  dot N L <= 0 ->
  computeLambertianModel state cameraDirection lightDirection lightColor hitInfo = vzero
  /\ computePhongModel state cameraDirection lightDirection lightColor hitInfo
     = (ks (material hitInfo) * lightColor *^ fmax (dot (reflect (- L)%vec N) V) 0)%vec.
Proof.
  intros N L V Hle. subst N L V.
  unfold computeLambertianModel, computePhongModel.
  rewrite (fmax_comm (dot (normalize (normal hitInfo)) (normalize lightDirection)) 0).
  rewrite (fmax_nonpos _ Hle). split; vec_eq.
Qed.

Lemma shading_light_behind_witness :
  computeLambertianModel unlit_scene below below (vec3_of 1) (back_hit 8) = vzero.
Proof.
  apply (shading_light_behind unlit_scene below below (vec3_of 1) (back_hit 8)).
  replace (normalize below) with (mkvec3 0 0 (-1))
    by (symmetry; apply normalize_z_down; simpl; lra).
  replace (normalize (normal (back_hit 8))) with (mkvec3 0 0 1)
    by (symmetry; apply normalize_z_up; simpl; lra).
  unfold dot; simpl; lra.
Defined.

Lemma computeShading_scale (state : RenderState)
    (cameraDirection lightDirection lightColor : vec3) (hitInfo : HitInfo) (k : R) :
  computeShading state cameraDirection lightDirection (lightColor *^ k) hitInfo
  = computeShading state cameraDirection lightDirection lightColor hitInfo *^ k.
Proof.
  unfold computeShading.
  destruct (enableShading (features state)); [| vec_eq].
  destruct (shadingModel (features state));
    unfold computeLambertianModel, computePhongModel, computeBlinnPhongModel,
      computeLinearGradientModel;
    try (destruct (LinearGradient_sample gradient _));
    vec_eq.
Qed.

(** [computeShading] is linear in the colour of the light, whatever the
    shading model and the flags: scaling the light scales the result, and the
    result for the sum of two lights at the same place is the sum of the
    results. *)
Theorem computeShading_linear (state : RenderState)
    (cameraDirection lightDirection : vec3) (hitInfo : HitInfo) :
  (forall lightColor k,
     computeShading state cameraDirection lightDirection (lightColor *^ k) hitInfo
     = computeShading state cameraDirection lightDirection lightColor hitInfo *^ k)
  /\ (forall c1 c2,
        computeShading state cameraDirection lightDirection (c1 + c2)%vec hitInfo
        = (computeShading state cameraDirection lightDirection c1 hitInfo
           + computeShading state cameraDirection lightDirection c2 hitInfo)%vec).
Proof.
  split; [intros lightColor k; apply computeShading_scale |].
  intros c1 c2. unfold computeShading.
  destruct (enableShading (features state)); [| vec_eq].
  destruct (shadingModel (features state)).
  - unfold computeLambertianModel. vec_eq.
  - unfold computePhongModel. vec_eq.
  - unfold computeBlinnPhongModel. vec_eq.
  - unfold computeLinearGradientModel.
    destruct (LinearGradient_sample gradient _); vec_eq.
Qed.

(** ** Gradient sampling, beyond sorted gradients *)

(** What the search returns is the interpolation of two neighbouring
    components that bracket [ti]. *)
Lemma sample_search_found (ti : R) :
  forall (l : list Component) (c : vec3),
    sample_search l ti = Some c ->
    exists i a b,
      nth_error l i = Some a /\ nth_error l (S i) = Some b
      /\ comp_t a <= ti <= comp_t b
      /\ c = mix (comp_color a) (comp_color b) ((ti - comp_t a) / (comp_t b - comp_t a)).
Proof.
  induction l as [| a l IH]; intros c H; [discriminate H |].
  destruct l as [| b rest]; [discriminate H |].
  change (sample_search (a :: b :: rest) ti) with
    (if Rle_dec (comp_t a) ti then
       if Rle_dec ti (comp_t b) then
         Some (mix (comp_color a) (comp_color b) ((ti - comp_t a) / (comp_t b - comp_t a)))
       else sample_search (b :: rest) ti
     else sample_search (b :: rest) ti) in H.
  assert (Hrec : sample_search (b :: rest) ti = Some c ->
            exists i a0 b0,
              nth_error (a :: b :: rest) i = Some a0
              /\ nth_error (a :: b :: rest) (S i) = Some b0
              /\ comp_t a0 <= ti <= comp_t b0
              /\ c = mix (comp_color a0) (comp_color b0)
                       ((ti - comp_t a0) / (comp_t b0 - comp_t a0))).
  { intros H'. destruct (IH c H') as (i & a0 & b0 & Ha & Hb & Hin & Hc).
    exists (S i), a0, b0. repeat split; try assumption; lra. }
  destruct (Rle_dec (comp_t a) ti) as [Hlo |]; [| exact (Hrec H)].
  destruct (Rle_dec ti (comp_t b)) as [Hhi |]; [| exact (Hrec H)].
  injection H as <-. exists 0%nat, a, b. repeat split; assumption.
Qed.

(** [LinearGradient::sample] fails (an assertion) exactly on gradients with
    fewer than two components: with two or more, sorted or not, the search
    after the two clamping tests always finds a bracket, so the final
    [assert(false)] is never reached. *)
Theorem LinearGradient_sample_fails_iff (g : LinearGradient) (ti : R) :
  LinearGradient_sample g ti = None <-> (length g < 2)%nat.
Proof.
  split.
  - intros H. destruct (Nat.lt_ge_cases (length g) 2) as [Hlt | Hge]; [exact Hlt |].
    exfalso. exact (LinearGradient_sample_some g ti Hge H).
  - intros Hlt. destruct g as [| a [| b rest]]; simpl in Hlt; try lia; reflexivity.
Qed.

(** What a successful sample is: the colour of a component, or the
    interpolation of two neighbouring components that bracket [ti]. *)
Lemma LinearGradient_sample_cases (g : LinearGradient) (ti : R) (c : vec3) :
  LinearGradient_sample g ti = Some c ->
  (exists k, In k g /\ c = comp_color k)
  \/ (exists i a b,
        nth_error g i = Some a /\ nth_error g (S i) = Some b
        /\ comp_t a <= ti <= comp_t b
        /\ c = mix (comp_color a) (comp_color b)
                ((ti - comp_t a) / (comp_t b - comp_t a))).
Proof.
  intros H.
  destruct (Nat.lt_ge_cases (length g) 2) as [Hlt | Hlen].
  { destruct g as [| a [| b rest]]; simpl in Hlt; try lia; discriminate H. }
  destruct g as [| front g']; [simpl in Hlen; lia |].
  rewrite (LinearGradient_sample_unfold (front :: g') front ti Hlen eq_refl) in H.
  destruct (Rle_dec ti (comp_t front)).
  { injection H as <-. left. exists front. split; [left |]; reflexivity. }
  destruct (Rge_dec ti (comp_t (last (front :: g') front))).
  { injection H as <-. left. exists (last (front :: g') front).
    split; [| reflexivity].
    eapply nth_error_In. apply nth_error_last_index. discriminate. }
  right. apply sample_search_found. exact H.
Qed.

Lemma alpha_unit (ta tb ti : R) :
  ta < tb -> ta <= ti <= tb -> 0 <= (ti - ta) / (tb - ta) <= 1.
Proof.
  intros Hab Hti. split.
  - apply Rmult_le_pos; [lra |]. apply Rlt_le, Rinv_0_lt_compat. lra.
  - apply Rmult_le_reg_r with (tb - ta); [lra |].
    unfold Rdiv. rewrite Rmult_assoc, Rinv_l by lra. lra.
Qed.

(** On a well-formed gradient the sample never overshoots: it is a convex
    combination [mix(colorA, colorB, alpha)], [0 <= alpha <= 1], of the colours
    of two components of the gradient. *)
Theorem LinearGradient_sample_convex (g : LinearGradient) (ti : R) :
  gradient_wf g ->
  exists a b alpha,
    In a g /\ In b g /\ 0 <= alpha <= 1
    /\ LinearGradient_sample g ti = Some (mix (comp_color a) (comp_color b) alpha).
Proof.
  intros (Hlen & Hsorted & Hnd).
  pose proof (gradient_wf_strict g Hsorted Hnd) as Hs.
  destruct (LinearGradient_sample g ti) as [c |] eqn:E;
    [| exfalso; exact (LinearGradient_sample_some g ti Hlen E)].
  destruct (LinearGradient_sample_cases g ti c E)
    as [(k & Hk & ->) | (i & a & b & Ha & Hb & Hin & ->)].
  - exists k, k, 0. repeat split; try assumption; try lra. f_equal. vec_eq.
  - assert (Hab : comp_t a < comp_t b)
      by (apply (sorted_nth_lt g Hs i (S i)); [lia | exact Ha | exact Hb]).
    exists a, b, ((ti - comp_t a) / (comp_t b - comp_t a)).
    split; [eapply nth_error_In; exact Ha |].
    split; [eapply nth_error_In; exact Hb |].
    split; [apply alpha_unit; assumption | reflexivity].
Qed.

Lemma LinearGradient_sample_convex_witness :
  exists a b alpha,
    In a two_tone /\ In b two_tone /\ 0 <= alpha <= 1
    /\ LinearGradient_sample two_tone 0.5
       = Some (mix (comp_color a) (comp_color b) alpha).
Proof.
  apply (LinearGradient_sample_convex two_tone 0.5). exact two_tone_wf.
Defined.

Lemma gradient_hardcoded_wf : gradient_wf gradient.
Proof.
  unfold gradient_wf, gradient. split; [simpl; lia |]. split.
  - repeat constructor; simpl; lra.
  - simpl. repeat constructor; simpl; intuition lra.
Qed.

Lemma mix_nonneg (a b : vec3) (alpha : R) :
  nonneg a -> nonneg b -> 0 <= alpha <= 1 -> nonneg (mix a b alpha).
Proof.
  intros (Ha1 & Ha2 & Ha3) (Hb1 & Hb2 & Hb3) Halpha.
  unfold nonneg. vec_unfold. repeat split; nra.
Qed.

Lemma gradient_hardcoded_nonneg (ti : R) (c : vec3) :
  LinearGradient_sample gradient ti = Some c -> nonneg c.
Proof.
  intros H.
  assert (Hall : forall k, In k gradient -> nonneg (comp_color k)).
  { intros k Hk. unfold gradient in Hk. simpl in Hk.
    repeat (destruct Hk as [<- | Hk]; [unfold nonneg; simpl; lra |]).
    contradiction. }
  destruct gradient_hardcoded_wf as (_ & Hsorted & Hnd).
  pose proof (gradient_wf_strict gradient Hsorted Hnd) as Hs.
  destruct (LinearGradient_sample_cases gradient ti c H)
    as [(k & Hk & ->) | (i & a & b & Ha & Hb & Hin & ->)]; [auto |].
  apply mix_nonneg.
  - apply Hall. eapply nth_error_In. exact Ha.
  - apply Hall. eapply nth_error_In. exact Hb.
  - apply alpha_unit; [| exact Hin].
    apply (sorted_nth_lt gradient Hs i (S i)); [lia | exact Ha | exact Hb].
Qed.

(** ** Radiance stays in range *)

Lemma vmul_nonneg (a b : vec3) : nonneg a -> nonneg b -> nonneg (a * b)%vec.
Proof.
  intros (? & ? & ?) (? & ? & ?). unfold nonneg. vec_unfold.
  repeat split; apply Rmult_le_pos; assumption.
Qed.

Lemma vscale_nonneg (a : vec3) (k : R) : nonneg a -> 0 <= k -> nonneg (a *^ k).
Proof.
  intros (? & ? & ?) ?. unfold nonneg. vec_unfold.
  repeat split; apply Rmult_le_pos; assumption.
Qed.

Lemma vadd_nonneg (a b : vec3) : nonneg a -> nonneg b -> nonneg (a + b)%vec.
Proof.
  intros (? & ? & ?) (? & ? & ?). unfold nonneg. vec_unfold. repeat split; lra.
Qed.

Lemma vzero_nonneg : nonneg vzero.
Proof. unfold nonneg. simpl. lra. Qed.

Lemma fmax_nonneg_r (a : R) : 0 <= fmax a 0.
Proof. rewrite fmax_comm. apply fmax_nonneg_l. Qed.

Lemma powf_nonneg (b e : R) : 0 <= powf b e.
Proof.
  unfold powf. destruct (Req_dec_T e 0); [lra |].
  destruct (Rlt_dec 0 b); [| lra].
  unfold Rpower. apply Rlt_le, exp_pos.
Qed.

(** The shading models never return negative radiance: when the colour of
    the light, the diffuse colour resolved for the hit and the specular colour
    of the material have no negative channel, neither has the result of
    [computeShading], for every model and every pair of directions. *)
Theorem computeShading_nonneg (state : RenderState)
    (cameraDirection lightDirection lightColor : vec3) (hitInfo : HitInfo) :
  nonneg lightColor ->
  nonneg (sampleMaterialKd state hitInfo) ->
  nonneg (ks (material hitInfo)) ->
  nonneg (computeShading state cameraDirection lightDirection lightColor hitInfo).
Proof.
  intros Hl Hkd Hks. unfold computeShading.
  destruct (enableShading (features state)); [| apply vmul_nonneg; assumption].
  destruct (shadingModel (features state)).
  - unfold computeLambertianModel.
    apply vscale_nonneg; [apply vmul_nonneg; assumption | apply fmax_nonneg_l].
  - unfold computePhongModel. apply vadd_nonneg.
    + apply vscale_nonneg; [| apply fmax_nonneg_r].
      apply vmul_nonneg; [| assumption].
      apply vscale_nonneg; [assumption | apply fmax_nonneg_r].
    + apply vscale_nonneg; [apply vmul_nonneg; assumption | apply fmax_nonneg_r].
  - unfold computeBlinnPhongModel. apply vadd_nonneg.
    + apply vscale_nonneg; [apply vmul_nonneg; assumption | apply fmax_nonneg_r].
    + apply vscale_nonneg; [apply vmul_nonneg; assumption | apply powf_nonneg].
  - unfold computeLinearGradientModel.
    destruct (LinearGradient_sample gradient _) as [c |] eqn:E; [| apply vzero_nonneg].
    apply vmul_nonneg; [| assumption].
    eapply gradient_hardcoded_nonneg. exact E.
Qed.

Lemma computeShading_nonneg_witness :
  nonneg (computeShading (mirror_scene false) (mkvec3 0 0 1) (mkvec3 1 0 1)
            (vec3_of 1) (floor_hit (floor_material (vec3_of 1) 8 0.5))).
Proof.
  apply computeShading_nonneg; unfold nonneg; simpl; lra.
Defined.

(** The visibility of a light sample never amplifies the light and never
    turns it negative: for a light without negative channel, a diffuse colour
    with channels in [[0,1]] and a transparency in [[0,1]], every channel of
    [visibilityOfLightSample] lies between [0] and that of [lightColor], in
    each of the three modes. *)
Theorem visibilityOfLightSample_bounded (state : RenderState)
    (lightPosition lightColor : vec3) (ray : Ray) (hitInfo : HitInfo) :
  nonneg lightColor ->
  unit_range (kd (material hitInfo)) ->
  0 <= transparency (material hitInfo) <= 1 ->
  vle vzero (visibilityOfLightSample state lightPosition lightColor ray hitInfo)
  /\ vle (visibilityOfLightSample state lightPosition lightColor ray hitInfo) lightColor.
Proof.
  intros (Hl1 & Hl2 & Hl3) ((Hk1 & Hk2 & Hk3) & (Hk4 & Hk5 & Hk6)) Htr.
  simpl in Hk1, Hk2, Hk3, Hk4, Hk5, Hk6.
  unfold visibilityOfLightSample, visibilityOfLightSampleBinary,
    visibilityOfLightSampleTransparency.
  destruct (enableShadows (features state)); cbn [negb];
    [| unfold vle; simpl; lra].
  destruct (enableTransparency (features state)); cbn [negb].
  - destruct (bvh_intersect state _); [| unfold vle; simpl; lra].
    assert (Hb : forall l k, 0 <= l -> 0 <= k <= 1 ->
              0 <= l * k * (1 - transparency (material hitInfo)) <= l).
    { intros l k Hl Hk.
      assert (0 <= k * (1 - transparency (material hitInfo)) <= 1) by nra.
      rewrite Rmult_assoc. nra. }
    unfold vle. vec_unfold.
    pose proof (Hb _ _ Hl1 (conj Hk1 Hk4)).
    pose proof (Hb _ _ Hl2 (conj Hk2 Hk5)).
    pose proof (Hb _ _ Hl3 (conj Hk3 Hk6)).
    lra.
  - destruct (bvh_intersect state _); unfold vle; simpl; lra.
Qed.

Lemma visibilityOfLightSample_bounded_witness :
  vle (visibilityOfLightSample
         (floor_scene (floor_material vzero 0 0.5) [] (flat_features true true 0))
         (position buried_light) (vec3_of 1) camera_ray_hit
         (floor_hit (floor_material vzero 0 0.5)))
      (vec3_of 1).
Proof.
  apply (visibilityOfLightSample_bounded
           (floor_scene (floor_material vzero 0 0.5) [] (flat_features true true 0))
           (position buried_light) (vec3_of 1) camera_ray_hit
           (floor_hit (floor_material vzero 0 0.5)));
    unfold nonneg, unit_range, vle; simpl; lra.
Defined.

(** ** Direct lighting as a whole *)

Lemma computeShading_same (st st' : RenderState) :
  same_lighting st st' ->
  forall cameraDirection lightDirection lightColor hitInfo,
    computeShading st cameraDirection lightDirection lightColor hitInfo
    = computeShading st' cameraDirection lightDirection lightColor hitInfo.
Proof.
  intros (_ & H1 & H2 & H3 & H4 & _) cameraDirection lightDirection lightColor hitInfo.
  unfold computeShading, computeLambertianModel, computePhongModel,
    computeBlinnPhongModel, computeLinearGradientModel, sampleMaterialKd.
  rewrite H1, H2, H3, H4. reflexivity.
Qed.

Lemma visibilityOfLightSampleBinary_same (st st' : RenderState) :
  same_lighting st st' ->
  forall lightPosition lightColor ray hitInfo,
    visibilityOfLightSampleBinary st lightPosition lightColor ray hitInfo
    = visibilityOfLightSampleBinary st' lightPosition lightColor ray hitInfo.
Proof.
  intros (H & _) lightPosition lightColor ray hitInfo.
  unfold visibilityOfLightSampleBinary. rewrite H. reflexivity.
Qed.

Lemma computeContributionPointLight_same (st st' : RenderState) :
  same_lighting st st' ->
  forall light ray hitInfo,
    computeContributionPointLight st light ray hitInfo
    = computeContributionPointLight st' light ray hitInfo.
Proof.
  intros H light ray hitInfo. unfold computeContributionPointLight.
  rewrite (visibilityOfLightSampleBinary_same st st' H).
  unfold visibilityOfLightSampleTransparency.
  rewrite !(computeShading_same st st' H).
  destruct H as (-> & _). reflexivity.
Qed.

Lemma segmentLoop_same (st st' : RenderState) :
  same_lighting st st' ->
  forall light ray hitInfo n acc s,
    segmentLoop st light ray hitInfo n acc s = segmentLoop st' light ray hitInfo n acc s.
Proof.
  intros H light ray hitInfo. induction n as [| n IH]; intros acc s; [reflexivity |].
  cbn [segmentLoop]. destruct (next_1d s) as [sample s1]. rewrite IH.
  f_equal. f_equal. unfold segmentSample.
  destruct (sampleSegmentLight sample light) as [lightPosition lightColor].
  rewrite (visibilityOfLightSampleBinary_same st st' H).
  rewrite (computeShading_same st st' H). reflexivity.
Qed.

Lemma parallelogramLoop_same (st st' : RenderState) :
  same_lighting st st' ->
  forall light ray hitInfo n acc s,
    parallelogramLoop st light ray hitInfo n acc s
    = parallelogramLoop st' light ray hitInfo n acc s.
Proof.
  intros H light ray hitInfo. induction n as [| n IH]; intros acc s; [reflexivity |].
  cbn [parallelogramLoop]. destruct (next_2d s) as [sample s1]. rewrite IH.
  f_equal. f_equal. unfold parallelogramSample.
  destruct (sampleParallelogramLight sample light) as [lightPosition lightColor].
  rewrite (visibilityOfLightSampleBinary_same st st' H).
  rewrite (computeShading_same st st' H). reflexivity.
Qed.

Lemma lightContribution_same (st st' : RenderState) :
  same_lighting st st' ->
  forall ray hitInfo light s,
    lightContribution st ray hitInfo light s = lightContribution st' ray hitInfo light s.
Proof.
  intros H ray hitInfo light s. destruct light as [l | l | l]; cbn [lightContribution].
  - rewrite (computeContributionPointLight_same st st' H). reflexivity.
  - unfold computeContributionSegmentLight.
    rewrite (segmentLoop_same st st' H).
    destruct H as (_ & _ & _ & _ & _ & ->). reflexivity.
  - unfold computeContributionParallelogramLight.
    rewrite (parallelogramLoop_same st st' H).
    destruct H as (_ & _ & _ & _ & _ & ->). reflexivity.
Qed.

Lemma lightsLoop_same (st st' : RenderState) :
  same_lighting st st' ->
  forall ray hitInfo ls Lo s,
    lightsLoop st ray hitInfo ls Lo s = lightsLoop st' ray hitInfo ls Lo s.
Proof.
  intros H ray hitInfo. induction ls as [| light ls IH]; intros Lo s; [reflexivity |].
  cbn [lightsLoop]. rewrite (lightContribution_same st st' H).
  destruct (lightContribution st' ray hitInfo light s) as [c s1]. apply IH.
Qed.

(** Direct lighting does not read [enableShadows], [enableTransparency] or
    [enableReflections]: the contributions call
    [visibilityOfLightSampleBinary] and [visibilityOfLightSampleTransparency]
    themselves and never the dispatcher [visibilityOfLightSample], so
    [computeLightContribution] returns the same colour and sampler for every
    setting of the three flags. *)
Theorem computeLightContribution_ignores_shadow_flags (state : RenderState)
    (shadows transp refl : bool) (ray : Ray) (hitInfo : HitInfo) (s : Sampler) :
  computeLightContribution (set_shadow_flags state shadows transp refl) ray hitInfo s
  = computeLightContribution state ray hitInfo s.
Proof.
  unfold computeLightContribution.
  change (lights (set_shadow_flags state shadows transp refl)) with (lights state).
  apply lightsLoop_same. repeat split.
Qed.

Lemma lightsLoop_app (state : RenderState) (ray : Ray) (hitInfo : HitInfo) :
  forall (l1 l2 : list Light) (Lo : vec3) (s : Sampler),
    lightsLoop state ray hitInfo (l1 ++ l2) Lo s =
      let '(c1, s1) := lightsLoop state ray hitInfo l1 Lo s in
      lightsLoop state ray hitInfo l2 c1 s1.
Proof.
  induction l1 as [| light l1 IH]; intros l2 Lo s; [reflexivity |].
  cbn [app lightsLoop].
  destruct (lightContribution state ray hitInfo light s) as [c s1]. apply IH.
Qed.

Lemma lightsLoop_acc (state : RenderState) (ray : Ray) (hitInfo : HitInfo) :
  forall (ls : list Light) (Lo : vec3) (s : Sampler),
    lightsLoop state ray hitInfo ls Lo s =
      ((Lo + fst (lightsLoop state ray hitInfo ls vzero s))%vec,
       snd (lightsLoop state ray hitInfo ls vzero s)).
Proof.
  induction ls as [| light ls IH]; intros Lo s.
  - cbn [lightsLoop fst snd]. rewrite vadd_zero_r. reflexivity.
  - cbn [lightsLoop].
    destruct (lightContribution state ray hitInfo light s) as [c s1].
    rewrite (IH (Lo + c)%vec), (IH (vzero + c)%vec). cbn [fst snd].
    f_equal. vec_eq.
Qed.

(** The total is a sum over the lights in scene order with the sampler
    handed on: the contribution of the lights [l1 ++ l2] is that of [l1] plus
    that of [l2], the second computed from the sampler the first leaves. *)
Theorem computeLightContribution_app (state : RenderState) (l1 l2 : list Light)
    (ray : Ray) (hitInfo : HitInfo) (s : Sampler) :
  computeLightContribution (set_lights state (l1 ++ l2)) ray hitInfo s =
    let '(c1, s1) := computeLightContribution (set_lights state l1) ray hitInfo s in
    let '(c2, s2) := computeLightContribution (set_lights state l2) ray hitInfo s1 in
    ((c1 + c2)%vec, s2).
Proof.
  assert (Hsame : forall ls, same_lighting (set_lights state ls) state)
    by (intros ls; repeat split).
  unfold computeLightContribution. cbn [lights set_lights].
  rewrite !(lightsLoop_same _ _ (Hsame _)), lightsLoop_app.
  destruct (lightsLoop state ray hitInfo l1 vzero s) as [c1 s1].
  rewrite (lightsLoop_same _ _ (Hsame l2)).
  rewrite (lightsLoop_acc state ray hitInfo l2 c1 s1).
  destruct (lightsLoop state ray hitInfo l2 vzero s1) as [c2 s2]. reflexivity.
Qed.

Lemma lightContribution_sampler (state : RenderState) (ray : Ray) (hitInfo : HitInfo)
    (light : Light) (s : Sampler) :
  snd (lightContribution state ray hitInfo light s) =
    mkSampler (draws s)
      (cursor s + numShadowSamples (features state) * drawsPerSample light).
Proof.
  destruct light as [l | l | l]; cbn [lightContribution drawsPerSample snd].
  - rewrite Nat.mul_0_r, Nat.add_0_r. destruct s; reflexivity.
  - unfold computeContributionSegmentLight. rewrite segmentLoop_sum.
    destruct (0 <? _)%nat; cbn [snd]; f_equal; lia.
  - unfold computeContributionParallelogramLight. rewrite parallelogramLoop_sum.
    destruct (0 <? _)%nat; cbn [snd]; f_equal; lia.
Qed.

(** Direct lighting leaves the sequence of draws alone and advances the
    cursor by exactly [numShadowSamples] for every segment light of the scene
    and twice that for every parallelogram light; point lights draw
    nothing.  This holds whether or not the samples are occluded. *)
Theorem computeLightContribution_draws (state : RenderState) (ray : Ray)
    (hitInfo : HitInfo) (s : Sampler) :
  snd (computeLightContribution state ray hitInfo s) =
    mkSampler (draws s)
      (cursor s + numShadowSamples (features state)
                  * list_sum (map drawsPerSample (lights state))).
Proof.
  unfold computeLightContribution. generalize vzero as Lo. revert s.
  induction (lights state) as [| light ls IH]; intros s Lo.
  - cbn [lightsLoop map list_sum snd]. rewrite Nat.mul_0_r, Nat.add_0_r.
    destruct s; reflexivity.
  - cbn [lightsLoop map]. unfold list_sum. cbn [fold_right].
    fold (list_sum (map drawsPerSample ls)).
    pose proof (lightContribution_sampler state ray hitInfo light s) as Hs.
    destruct (lightContribution state ray hitInfo light s) as [c s1].
    cbn [snd] in Hs. rewrite IH, Hs. cbn [draws cursor]. f_equal.
    rewrite Nat.mul_add_distr_l. lia.
Qed.

Lemma visibilityOfLightSampleBinary_enclosed (state : RenderState)
    (lightPosition lightColor : vec3) (ray : Ray) (hitInfo : HitInfo) :
  enclosed state ->
  visibilityOfLightSampleBinary state lightPosition lightColor ray hitInfo = false.
Proof.
  intros H. unfold visibilityOfLightSampleBinary.
  destruct (bvh_intersect state _) eqn:E; [reflexivity |].
  exfalso. exact (H _ E).
Qed.

Lemma vdiv_zero (k : R) : vzero /^ k = vzero.
Proof. vec_eq; unfold Rdiv; ring. Qed.

Lemma lightContribution_enclosed (state : RenderState) (ray : Ray) (hitInfo : HitInfo)
    (light : Light) (s : Sampler) :
  enclosed state -> fst (lightContribution state ray hitInfo light s) = vzero.
Proof.
  intros H. destruct light as [l | l | l]; cbn [lightContribution].
  - cbn [fst]. apply computeContributionPointLight_occluded.
    apply visibilityOfLightSampleBinary_enclosed, H.
  - unfold computeContributionSegmentLight. rewrite segmentLoop_sum.
    rewrite (vsum_ext _ (fun _ => vzero)).
    + assert (Hz : forall n, vsum (fun _ => vzero) n = vzero)
        by (induction n as [| n IH]; [reflexivity | simpl; rewrite IH; vec_eq]).
      rewrite Hz, vadd_zero_r.
      destruct (0 <? _)%nat; cbn [fst]; [apply vdiv_zero | reflexivity].
    + intros i _. unfold segmentSample.
      destruct (sampleSegmentLight _ l) as [lightPosition lightColor].
      rewrite visibilityOfLightSampleBinary_enclosed by exact H. reflexivity.
  - unfold computeContributionParallelogramLight. rewrite parallelogramLoop_sum.
    rewrite (vsum_ext _ (fun _ => vzero)).
    + assert (Hz : forall n, vsum (fun _ => vzero) n = vzero)
        by (induction n as [| n IH]; [reflexivity | simpl; rewrite IH; vec_eq]).
      rewrite Hz, vadd_zero_r.
      destruct (0 <? _)%nat; cbn [fst]; [apply vdiv_zero | reflexivity].
    + intros i _. unfold parallelogramSample.
      destruct (sampleParallelogramLight _ l) as [lightPosition lightColor].
      rewrite visibilityOfLightSampleBinary_enclosed by exact H. reflexivity.
Qed.

(** In a closed room, where every ray hits something, no light contributes:
    every shadow ray is reported occluded, whatever lies between the surface
    and the light and whatever the flags, so the direct lighting of every hit
    is black. *)
Theorem computeLightContribution_enclosed (state : RenderState) (ray : Ray)
    (hitInfo : HitInfo) (s : Sampler) :
  enclosed state ->
  fst (computeLightContribution state ray hitInfo s) = vzero.
Proof.
  intros H. unfold computeLightContribution.
  rewrite lightsLoop_acc. cbn [fst]. rewrite vadd_zero_l.
  revert s. induction (lights state) as [| light ls IH]; intros s; [reflexivity |].
  cbn [lightsLoop].
  pose proof (lightContribution_enclosed state ray hitInfo light s H) as Hc.
  destruct (lightContribution state ray hitInfo light s) as [c s1].
  cbn [fst] in Hc. subst c.
  rewrite lightsLoop_acc. cbn [fst]. rewrite vadd_zero_r, vadd_zero_l. apply IH.
Qed.

Lemma computeLightContribution_enclosed_witness :
  fst (computeLightContribution
         (room_scene [LPoint buried_light; LSegment pole_light; LParallelogram panel_light]
            (flat_features false false 3))
         camera_ray_hit (floor_hit (floor_material vzero 0 1)) step_sampler)
  = vzero.
Proof.
  apply computeLightContribution_enclosed. intros r. discriminate.
Defined.

(** The contribution of a point light is proportional to the colour of the
    light: scaling the colour by [k] scales the contribution by [k],
    occluded or not, transparent material or not. *)
Theorem computeContributionPointLight_scale (state : RenderState)
    (lightPosition lightColor : vec3) (k : R) (ray : Ray) (hitInfo : HitInfo) :
  computeContributionPointLight state
    {| position := lightPosition; color := lightColor *^ k |} ray hitInfo
  = computeContributionPointLight state
      {| position := lightPosition; color := lightColor |} ray hitInfo *^ k.
Proof.
  unfold computeContributionPointLight, visibilityOfLightSampleBinary.
  cbn [position color].
  destruct (bvh_intersect state (shadowRayBinary lightPosition ray)); [vec_eq |].
  rewrite !computeShading_scale.
  destruct (Rlt_dec (transparency (material hitInfo)) 1); [| reflexivity].
  unfold visibilityOfLightSampleTransparency.
  destruct (bvh_intersect state _); vec_eq.
Qed.

(** ** Secondary rays *)

Lemma dot_normalize (v : vec3) : 0 < dot v v -> dot (normalize v) (normalize v) = 1.
Proof.
  intros Hv. unfold normalize.
  assert (Hs : sqrt (dot v v) * sqrt (dot v v) = dot v v) by (apply sqrt_sqrt; lra).
  assert (Hp : 0 < sqrt (dot v v)) by (apply sqrt_lt_R0; exact Hv).
  set (r := sqrt (dot v v)) in *.
  unfold dot at 1. vec_unfold.
  replace (x v * / r * (x v * / r) + y v * / r * (y v * / r) + z v * / r * (z v * / r))
    with (dot v v * (/ r * / r)) by (unfold dot; ring).
  rewrite <- Hs. field. lra.
Qed.

Lemma generateReflectionRay_direction (ray : Ray) (hitInfo : HitInfo) :
  direction (generateReflectionRay ray hitInfo)
  = (normalize (direction ray)
     - normalize (normal hitInfo)
       *^ (2 * dot (normalize (direction ray)) (normalize (normal hitInfo))))%vec.
Proof. reflexivity. Qed.

Lemma reflection_unit (ray : Ray) (hitInfo : HitInfo) :
  0 < dot (direction ray) (direction ray) ->
  0 < dot (normal hitInfo) (normal hitInfo) ->
  dot (direction (generateReflectionRay ray hitInfo))
      (direction (generateReflectionRay ray hitInfo)) = 1.
Proof.
  intros Hd Hn. rewrite generateReflectionRay_direction.
  pose proof (dot_normalize _ Hd) as Hi. pose proof (dot_normalize _ Hn) as Hu.
  set (i := normalize (direction ray)) in *.
  set (n := normalize (normal hitInfo)) in *.
  replace (dot (i - n *^ (2 * dot i n)) (i - n *^ (2 * dot i n))%vec)
    with (dot i i - 4 * dot i n * dot i n + 4 * dot i n * dot i n * dot n n)
    by (unfold dot; vec_unfold; ring).
  rewrite Hi, Hu. ring.
Qed.

(** The law of reflection: for a ray with a direction and a hit with a
    normal (neither the zero vector), the ray of [generateReflectionRay]
    starts [0.001] along the unit normal from the hit point, its direction has
    unit length, and its component along the normal is the opposite of that
    of the incident direction. *)
Theorem generateReflectionRay_mirror (ray : Ray) (hitInfo : HitInfo) :
  let N := normalize (normal hitInfo) in
  let reflected := generateReflectionRay ray hitInfo in
  0 < dot (direction ray) (direction ray) ->
  0 < dot (normal hitInfo) (normal hitInfo) ->
  origin reflected = (origin ray + direction ray *^ t ray + N *^ 0.001)%vec
  /\ dot (direction reflected) N = - dot (normalize (direction ray)) N
  /\ dot (direction reflected) (direction reflected) = 1.
Proof.
  intros N reflected Hd Hn. subst N reflected.
  split; [reflexivity |]. split; [| apply reflection_unit; assumption].
  rewrite generateReflectionRay_direction.
  pose proof (dot_normalize _ Hn) as Hu.
  set (i := normalize (direction ray)) in *.
  set (n := normalize (normal hitInfo)) in *.
  replace (dot (i - n *^ (2 * dot i n))%vec n)
    with (dot i n - 2 * dot i n * dot n n) by (unfold dot; vec_unfold; ring).
  rewrite Hu. ring.
Qed.

Lemma generateReflectionRay_mirror_witness :
  dot (direction (generateReflectionRay camera_ray_hit
                    (floor_hit (floor_material (vec3_of 1) 8 1))))
      (normalize (normal (floor_hit (floor_material (vec3_of 1) 8 1))))
  = - dot (normalize (direction camera_ray_hit))
          (normalize (normal (floor_hit (floor_material (vec3_of 1) 8 1)))).
Proof.
  apply (generateReflectionRay_mirror camera_ray_hit
           (floor_hit (floor_material (vec3_of 1) 8 1)));
    unfold dot; simpl; lra.
Defined.

(** The degenerate-ray guard of [renderRaySpecularComponent] does not fire on
    proper geometry: with reflections enabled, a ray with a direction and a
    hit with a normal, the component always traces the reflected ray at
    [rayDepth + 1] and adds [ks] times its colour to [hitColor]. *)
Theorem renderRaySpecularComponent_traces (rec : RenderFn) (state : RenderState)
    (ray : Ray) (hitInfo : HitInfo) (hitColor : vec3) (rayDepth : Z) (s : Sampler) :
  enableReflections (features state) = true ->
  0 < dot (direction ray) (direction ray) ->
  0 < dot (normal hitInfo) (normal hitInfo) ->
  renderRaySpecularComponent rec state ray hitInfo hitColor rayDepth s =
    match rec (generateReflectionRay ray hitInfo) (rayDepth + 1)%Z s with
    | Some (reflectedColor, s') =>
        Some ((hitColor + ks (material hitInfo) * reflectedColor)%vec, s')
    | None => None
    end.
Proof.
  intros Hr Hd Hn. unfold renderRaySpecularComponent. rewrite Hr.
  destruct (vec3_eq_dec _ vzero) as [E | _]; [| reflexivity].
  exfalso. pose proof (reflection_unit ray hitInfo Hd Hn) as Hu.
  rewrite E in Hu. unfold dot in Hu. simpl in Hu. lra.
Qed.

Lemma renderRaySpecularComponent_traces_witness :
  renderRaySpecularComponent (fun _ _ => ret (vec3_of 0.5)) (mirror_scene false)
    camera_ray_hit (floor_hit (floor_material (vec3_of 1) 8 0.5)) vzero 0 step_sampler
  = Some ((vzero + vec3_of 1 * vec3_of 0.5)%vec, step_sampler).
Proof.
  apply (renderRaySpecularComponent_traces (fun _ _ => ret (vec3_of 0.5))
           (mirror_scene false) camera_ray_hit
           (floor_hit (floor_material (vec3_of 1) 8 0.5)) vzero 0 step_sampler);
    [reflexivity | unfold dot; simpl; lra | unfold dot; simpl; lra].
Defined.

(** ** What [renderRay] returns without recursion *)

(** A ray that misses the scene gets the environment map and draws nothing.
    A ray that hits gets the direct lighting alone, with no recursive call and
    without the glossy component being consulted, in each of these cases: at
    [rayDepth >= 6]; on an opaque surface without specular colour
    ([ks = 0], [transparency = 1]), whatever the flags; with reflections and
    transparency both disabled, whatever the material. *)
Theorem renderRay_direct_only (g : GlossyComponent) (state : RenderState)
    (ray : Ray) (rayDepth : Z) (s : Sampler) :
  (bvh_intersect state ray = None ->
     renderRay g state ray rayDepth s = Some (sampleEnvironmentMap state ray, s))
  /\ (forall t_hit hitInfo,
        bvh_intersect state ray = Some (t_hit, hitInfo) ->
        (6 <= rayDepth)%Z
        \/ (ks (material hitInfo) = vzero /\ transparency (material hitInfo) = 1)
        \/ (enableReflections (features state) = false
            /\ enableTransparency (features state) = false) ->
        renderRay g state ray rayDepth s =
          Some (computeLightContribution state
                  (mkRay (origin ray) (direction ray) t_hit) hitInfo s)).
Proof.
  split.
  - intros H. rewrite renderRay_unfold. unfold renderRay_body. rewrite H. reflexivity.
  - intros t_hit hitInfo H Hcase. rewrite renderRay_unfold. unfold renderRay_body.
    rewrite H. unfold bind at 1.
    destruct (computeLightContribution state _ hitInfo s) as [Lo s1].
    destruct (Z.ltb_spec rayDepth 6) as [Hlt | Hge]; [| reflexivity].
    destruct Hcase as [Hd | [[Hks Htr] | [Hr Ht]]]; [lia | |].
    + assert (Hrefl : isReflective hitInfo = false)
        by (unfold isReflective; destruct (vec3_eq_dec _ vzero); [reflexivity | contradiction]).
      assert (Htrans : isTransparent hitInfo = false)
        by (unfold isTransparent; destruct (Req_dec_T _ 1); [reflexivity | contradiction]).
      rewrite Hrefl, Htrans, !andb_false_r. reflexivity.
    + rewrite Hr, Ht. reflexivity.
Qed.

Lemma renderRay_direct_only_witness :
  renderRay glossy_two (set_features pole_scene (mirror_features true)) camera_ray 0
    step_sampler
  = Some (computeLightContribution (set_features pole_scene (mirror_features true))
            (mkRay (origin camera_ray) (direction camera_ray)
               (- z (origin camera_ray) / z (direction camera_ray)))
            (floor_hit (floor_material vzero 0 1)) step_sampler).
Proof.
  apply (proj2 (renderRay_direct_only glossy_two
                  (set_features pole_scene (mirror_features true)) camera_ray 0
                  step_sampler)).
  - apply (floor_intersect_hit (floor_material vzero 0 1) camera_ray);
      simpl; unfold FLT_MAX; lra.
  - right. left. split; reflexivity.
Defined.

(** A batch of one ray is that ray's render: [renderRays] on a single ray
    returns what [renderRay] returns for it, colour and sampler, in every
    scene. *)
Theorem renderRays_single (g : GlossyComponent) (state : RenderState) (ray : Ray)
    (rayDepth : Z) (s : Sampler) :
  renderRays g state [ray] rayDepth s = renderRay g state ray rayDepth s.
Proof.
  unfold renderRays, renderRaysLoop, bind.
  destruct (renderRay g state ray rayDepth s) as [[c s1] |]; [| reflexivity].
  unfold ret. f_equal. f_equal. vec_eq; simpl; field.
Qed.

(** The depth bound is attained.  [generatePassthroughRay] moves the origin
    by [0.001] along every axis, not along the ray, so over a transparent
    floor seen from above each passthrough ray starts above the floor again
    and hits it again: a call at depth 0 leads to a call at depth 6, and a
    budget of six nested calls is not enough. *)
Theorem renderRay_reaches_depth_6 (g : GlossyComponent) (r : Ray) (s : Sampler) :
  looks_down r ->
  renderRay_fuel g 6 glass_scene r 0%Z s = None
  /\ exists c s', renderRay_fuel g 7 glass_scene r 0%Z s = Some (c, s').
Proof.
  intros Hr. split; [apply renderRay_depth_reached; [lia | exact Hr] |].
  assert (Hsome : forall n r d s, looks_down r -> (6 - Z.of_nat n <= d)%Z ->
            renderRay_fuel g (S n) glass_scene r d s <> None).
  { clear r s Hr. induction n as [| n IH]; intros r d s (Hdir & Hpos & Hreach) Hd.
    - cbn [renderRay_fuel]. unfold renderRay_body.
      destruct (bvh_intersect glass_scene r) as [[t_hit hitInfo] |]; [| discriminate].
      unfold bind. destruct (computeLightContribution _ _ _ s).
      destruct (Z.ltb_spec d 6); [lia | discriminate].
    - change (renderRay_fuel g (S (S n)) glass_scene)
        with (renderRay_body g (renderRay_fuel g (S n) glass_scene) glass_scene).
      unfold renderRay_body.
      change (bvh_intersect glass_scene r)
        with (floor_intersect (floor_material vzero 0 0.5) r).
      rewrite floor_intersect_hit by (rewrite ?Hdir; simpl; lra).
      change (enableReflections (features glass_scene)) with false.
      change (enableTransparency (features glass_scene)) with true.
      cbn [andb]. unfold renderRayTransparentComponent.
      change (enableTransparency (features glass_scene)) with true.
      unfold bind, ret.
      destruct (computeLightContribution glass_scene _ _ s) as [Lo s1].
      destruct (Z.ltb_spec d 6) as [Hlt | Hge]; [| discriminate].
      destruct (isTransparent _); [| discriminate].
      destruct (vec3_eq_dec _ vzero); [discriminate |].
      match goal with
      | |- context [renderRay_fuel g (S n) glass_scene ?r' ?d' ?s'] =>
          assert (Hn : renderRay_fuel g (S n) glass_scene r' d' s' <> None)
      end.
      { apply IH; [| lia].
        unfold looks_down, generatePassthroughRay. cbn [direction origin t].
        split; [exact Hdir |]. rewrite Hdir. vec_unfold.
        replace (z (origin r) + -1 * (- z (origin r) / -1) + 0.001) with 0.001 by field.
        lra. }
      destruct (renderRay_fuel g (S n) glass_scene _ _ s1) as [[c s2] |];
        [discriminate | contradiction]. }
  specialize (Hsome 6%nat r 0%Z s Hr ltac:(lia)).
  destruct (renderRay_fuel g 7 glass_scene r 0%Z s) as [[c s'] |];
    [exists c, s'; reflexivity | contradiction].
Qed.

Lemma camera_ray_looks_down : looks_down camera_ray.
Proof. unfold looks_down. simpl. unfold FLT_MAX. split; [reflexivity | lra]. Qed.

Lemma renderRay_reaches_depth_6_witness :
  renderRay_fuel glossy_off 6 glass_scene camera_ray 0%Z step_sampler = None.
Proof.
  apply (renderRay_reaches_depth_6 glossy_off camera_ray step_sampler).
  exact camera_ray_looks_down.
Defined.

Lemma LinearGradient_sample_fails_iff_witness :
  LinearGradient_sample [Build_Component 0 (vec3_of 1)] 0.5 = None.
Proof.
  apply (proj2 (LinearGradient_sample_fails_iff [Build_Component 0 (vec3_of 1)] 0.5)).
  simpl. lia.
Defined.
